(** * TwitterMirrorBot: the relay pipeline of [Twitter2Bluesky.py]

    A shallow embedding of the Python program and the properties of its
    specification.  Python strings are lists of code points, the two
    regular expressions of the program are values of a small pattern
    type run by a backtracking matcher, and the effectful code
    ([get_metadata], [fetch_image_to_memory], the body of the polling
    loop of [monitor_tweets], [main]) is written in a monad that records
    the calls made to the outside world and carries Python exceptions. *)

From Stdlib Require Import String Ascii NArith ZArith Arith Lia Bool List.
From Stdlib Require DecimalString.
Import ListNotations.

Set Implicit Arguments.

(** ** Python strings *)

Module PyStr.

(** A [str] is a sequence of Unicode code points; [len] is [length]. *)
Definition char := N.
Definition str := list char.

(** A literal of the source, written as a Rocq string (ASCII only). *)
Definition lit (s : string) : str := map N_of_ascii (list_ascii_of_string s).

Definition char_eqb (a b : char) : bool := N.eqb a b.

Fixpoint str_eqb (a b : str) : bool :=
  match a, b with
  | [], [] => true
  | x :: a', y :: b' => char_eqb x y && str_eqb a' b'
  | _, _ => false
  end.

(** [s.startswith(p)] *)
Fixpoint startswith (p s : str) : bool :=
  match p with
  | [] => true
  | x :: p' =>
      match s with
      | [] => false
      | y :: s' => if char_eqb y x then startswith p' s' else false
      end
  end.

(** The characters [str.strip] removes when called without argument: the
    code points for which [str.isspace] holds. *)
Definition isspace (c : char) : bool :=
  ((9 <=? c) && (c <=? 13) || (28 <=? c) && (c <=? 32)
   || (c =? 133) || (c =? 160) || (c =? 5760)
   || (8192 <=? c) && (c <=? 8202)
   || (c =? 8232) || (c =? 8233) || (c =? 8239) || (c =? 8287)
   || (c =? 12288))%N.

Fixpoint lstrip (s : str) : str :=
  match s with
  | [] => []
  | c :: s' => if isspace c then lstrip s' else s
  end.

Definition rstrip (s : str) : str := rev (lstrip (rev s)).

Definition strip (s : str) : str := rstrip (lstrip s).

(** Truth value of an optional string: [None] and [''] are false. *)
Definition truthy (o : option str) : bool :=
  match o with
  | Some (_ :: _) => true
  | _ => false
  end.

(** [str(n)] for a natural number. *)
Definition of_nat (n : nat) : str :=
  lit (DecimalString.NilEmpty.string_of_uint (Nat.to_uint n)).

End PyStr.
Import PyStr.

(** ** The fragment of [re] the program uses *)

Module Re.

(** One element of a pattern: a literal character, [.] (any character but
    a newline), or a character class under [+]. *)
Inductive atom : Type :=
| Lit (c : char)
| Dot
| OneOrMore (cls : char -> bool).

Definition pattern := list atom.

Definition lits (s : string) : pattern := map Lit (lit s).

Fixpoint take_while (f : char -> bool) (s : str) : str :=
  match s with
  | [] => []
  | c :: s' => if f c then c :: take_while f s' else []
  end.

(** [match_here p s]: the length of the match of [p] at the start of [s],
    if there is one.  [+] is greedy and backtracks. *)
Fixpoint match_here (p : pattern) (s : str) {struct p} : option nat :=
  match p with
  | [] => Some 0
  | Lit c :: p' =>
      match s with
      | x :: s' => if char_eqb x c then option_map S (match_here p' s') else None
      | [] => None
      end
  | Dot :: p' =>
      match s with
      | x :: s' => if char_eqb x 10%N then None else option_map S (match_here p' s')
      | [] => None
      end
  | OneOrMore cls :: p' =>
      (fix try (k : nat) : option nat :=
         match k with
         | O => None
         | S k' =>
             match match_here p' (skipn k s) with
             | Some n => Some (k + n)
             | None => try k'
             end
         end) (length (take_while cls s))
  end.

Section Sub.

(** The pattern, as the function that matches it at the start of a
    string, and the replacement as a function of the matched text.
    Neither pattern of the program matches the empty string; a match of
    length 0 is treated as no match. *)
Variable matcher : str -> option nat.
Variable repl : str -> str.

(** [pattern.sub(repl, s)]: the leftmost non-overlapping matches are
    replaced, scanning from the left.  [skip] counts the characters of
    the current match that are still to be consumed. *)
Fixpoint sub_from (skip : nat) (s : str) : str :=
  match s with
  | [] => []
  | c :: s' =>
      match skip with
      | S k => sub_from k s'
      | O =>
          match matcher s with
          | Some (S n) => repl (firstn (S n) s) ++ sub_from n s'
          | _ => c :: sub_from 0 s'
          end
      end
  end.

Definition sub (s : str) : str := sub_from 0 s.

(** [pattern.finditer(s)]: the spans (start, length) of the same
    matches. *)
Fixpoint finditer_from (pos skip : nat) (s : str) : list (nat * nat) :=
  match s with
  | [] => []
  | c :: s' =>
      match skip with
      | S k => finditer_from (S pos) k s'
      | O =>
          match matcher s with
          | Some (S n) => (pos, S n) :: finditer_from (S pos) n s'
          | _ => finditer_from (S pos) 0 s'
          end
      end
  end.

Definition finditer (s : str) : list (nat * nat) := finditer_from 0 0 s.

(** The text between the spans, with [repl] in place of each span;
    [pos] is the position of the head of [s] in the whole string. *)
Fixpoint splice (pos : nat) (spans : list (nat * nat)) (s : str) : str :=
  match spans with
  | [] => s
  | (i, m) :: rest =>
      firstn (i - pos) s ++ repl (firstn m (skipn (i - pos) s))
        ++ splice (i + m) rest (skipn (i - pos + m) s)
  end.

End Sub.

End Re.

(** ** Pure functions of the program *)

(** [[a-zA-Z0-9]] *)
Definition alnum (c : char) : bool :=
  ((97 <=? c) && (c <=? 122) || (65 <=? c) && (c <=? 90)
   || (48 <=? c) && (c <=? 57))%N.

(** [SHORT_URL_PATTERN = re.compile(r'https://t.co/[a-zA-Z0-9]+')]; the
    dot is not escaped in the source. *)
Definition SHORT_URL_PATTERN : Re.pattern :=
  Re.lits "https://t" ++ [Re.Dot] ++ Re.lits "co/" ++ [Re.OneOrMore alnum].

(** [r'(utm_source=)twitter']; group 1 is the first 11 characters of a
    match. *)
Definition UTM_PATTERN : Re.pattern := Re.lits "utm_source=twitter".

(** [r'\1bluesky'] *)
Definition utm_repl (m : str) : str := firstn 11 m ++ lit "bluesky".

Definition utm_twitter : str := lit "utm_source=twitter".
Definition utm_bluesky : str := lit "utm_source=bluesky".

(** [re.sub(r'(utm_source=)twitter', r'\1bluesky', url)] *)
Definition rewrite (url : str) : str :=
  Re.sub (Re.match_here UTM_PATTERN) utm_repl url.

(** [fix_utm_source(url)]; [url] may be [None]. *)
Definition fix_utm_source (url : option str) : option str :=
  match url with
  | None => None
  | Some [] => Some []
  | Some u => Some (rewrite u)
  end.

(** [SHORT_URL_PATTERN.sub('', text)] *)
Definition strip_short_urls (text : str) : str :=
  Re.sub (Re.match_here SHORT_URL_PATTERN) (fun _ => []) text.

(** [clean_text = SHORT_URL_PATTERN.sub('', latest_tweet.text).strip()] *)
Definition stripped (text : str) : str := strip (strip_short_urls text).

Definition BLUESKY_LIMIT : nat := 300.

(** The character limit check on [clean_text]. *)
Definition trim (clean_text : str) : str :=
  if BLUESKY_LIMIT <? length clean_text
  then rstrip (firstn (BLUESKY_LIMIT - 3) clean_text) ++ lit "..."
  else clean_text.

(** The text handed to [TextBuilder] for a tweet text. *)
Definition sanitize (text : str) : str := trim (stripped text).

(** A match at position [k] of [s]. *)
Definition short_url_at (s : str) (k n : nat) : Prop :=
  Re.match_here SHORT_URL_PATTERN (skipn k s) = Some n.


(** ** Effects: calls to the outside world and exceptions *)

Definition bytes := list Byte.byte.

(** A raised Python exception with its message.  [Exception] stands for
    the classes an [except Exception] clause catches; [BaseException] for
    those it lets through ([KeyboardInterrupt], [asyncio.CancelledError],
    [SystemExit]). *)
Inductive exn : Type :=
| Exception (msg : str)
| BaseException (msg : str).

(** [str(e)] *)
Definition exn_str (e : exn) : str :=
  match e with
  | Exception m => m
  | BaseException m => m
  end.

Definition is_Exception (e : exn) : bool :=
  match e with
  | Exception _ => true
  | BaseException _ => false
  end.

Inductive result (A : Type) : Type :=
| Ok (a : A)
| Raise (e : exn).
Arguments Ok {A} a.
Arguments Raise {A} e.

(** What the parser gives for the three queries of [get_metadata]:
    [tree.findtext('.//title')] and the three [tree.xpath(...)] lists. *)
Record tree : Type := {
  findtext_title : option str;
  xpath_og_description : list str;
  xpath_name_description : list str;
  xpath_og_image : list str
}.

(** The response of [session.get]: [response.status],
    [response.content.read(n)] and [response.read()]. *)
Record response : Type := {
  status : Z;
  content_read : nat -> result bytes;
  read : result bytes
}.

(** The dictionary [get_metadata] returns. *)
Record metadata : Type := {
  title : str;
  description : str;
  thumbnail : option str
}.

(** [models.AppBskyEmbedExternal.Main(external=External(...))] *)
Record embed : Type := {
  embed_title : str;
  embed_description : str;
  embed_uri : str;
  embed_thumb : str
}.

(** An entry of [tweet.urls]; [expanded_url] is [d.get('expanded_url')]. *)
Record url_entity : Type := { expanded_url : option str }.

Record tweet : Type := {
  id : str;
  text : str;
  urls : list url_entity
}.

Record account : Type := {
  twitter_user : str;
  bluesky_user : str;
  bluesky_pass : str
}.

(** The calls the program makes. *)
Inductive call : Type :=
| LoadCookies
| Login (user pass : str)
| GetUserByScreenName (name : str)
| GetUserTweets (user_id : str) (count : nat)
| SessionGet (url : str) (timeout : Z)
| UploadBlob (data : bytes)
| SendPost (text : str) (e : option embed).

(** What a run leaves behind, in order: a call with the exception it
    raised, if any; a printed line; a sleep. *)
Inductive event : Type :=
| Called (c : call) (raised : option exn)
| Print (line : str)
| Sleep (seconds : Z).

(** The outside world during one iteration of the polling loop: what each
    call answers. *)
Record world : Type := {
  get_user_tweets : str -> nat -> result (list tweet);
  session_get : str -> Z -> result response;
  fromstring : bytes -> result tree;
  upload_blob : bytes -> result str;
  send_post : str -> option embed -> result unit
}.

(** The outside world while a relay starts. *)
Record startup_world : Type := {
  cookies_exist : bool;
  load_cookies : result unit;
  login : str -> str -> result unit;
  get_user_by_screen_name : str -> result (option str)
}.

(** A computation: the events it leaves and its value or exception. *)
Definition IO (A : Type) : Type := (list event * result A)%type.

Definition ret {A} (a : A) : IO A := ([], Ok a).

Definition bind {A B} (m : IO A) (f : A -> IO B) : IO B :=
  match m with
  | (t, Ok a) => let (t', r) := f a in (t ++ t', r)
  | (t, Raise e) => (t, Raise e)
  end.

Declare Scope io_scope.
Delimit Scope io_scope with io.
Notation "x <- m ;; k" := (bind m (fun x => k))
  (at level 61, m at next level, right associativity) : io_scope.
Notation "m ;; k" := (bind m (fun _ => k))
  (at level 61, right associativity) : io_scope.
Local Open Scope io_scope.

Definition raised_of {A} (r : result A) : option exn :=
  match r with
  | Ok _ => None
  | Raise e => Some e
  end.

(** A call and its answer. *)
Definition do_call {A} (c : call) (r : result A) : IO A :=
  ([Called c (raised_of r)], r).

(** An operation of an object already at hand (reading a response,
    parsing): no event of its own. *)
Definition lift {A} (r : result A) : IO A := ([], r).

Definition print (line : str) : IO unit := ([Print line], Ok tt).

Definition sleep (seconds : Z) : IO unit := ([Sleep seconds], Ok tt).

(** [try: m  except Exception as e: h e] *)
Definition try_except {A} (m : IO A) (h : exn -> IO A) : IO A :=
  match m with
  | (t, Raise (Exception msg)) =>
      let (t', r) := h (Exception msg) in (t ++ t', r)
  | _ => m
  end.

Definition trace {A} (m : IO A) : list event := fst m.
Definition outcome {A} (m : IO A) : result A := snd m.

(** [a or b] on lists and on optional strings. *)
Definition list_or {A} (a b : list A) : list A :=
  match a with
  | [] => b
  | _ => a
  end.

Definition str_or (a : option str) (b : str) : str :=
  match a with
  | Some (c :: s) => c :: s
  | _ => b
  end.

(** ** [get_metadata] and [fetch_image_to_memory] *)

(** The extraction of the three fields from a parsed document. *)
Definition extract (t : tree) : metadata :=
  {| title := str_or (findtext_title t) (lit "No title");
     description :=
       hd [] (list_or (xpath_og_description t)
                (list_or (xpath_name_description t) [lit "No description"]));
     thumbnail := hd None (list_or (map Some (xpath_og_image t)) [None]) |}.

Definition get_metadata (w : world) (url : str) : IO (option metadata) :=
  try_except
    (response <- do_call (SessionGet url 10) (session_get w url 10) ;;
     if negb (status response =? 200)%Z then ret None
     else
       html_chunk <- lift (content_read response (1024 * 10)) ;;
       t <- lift (fromstring w html_chunk) ;;
       ret (Some (extract t)))
    (fun e =>
       print (lit "Metadata extraction warning for " ++ url ++ lit ": "
                ++ exn_str e) ;;
       ret None).

Definition fetch_image_to_memory (w : world) (url : str) : IO (option bytes) :=
  try_except
    (response <- do_call (SessionGet url 15) (session_get w url 15) ;;
     if (status response =? 200)%Z then
       data <- lift (read response) ;;
       ret (Some data)
     else ret None)
    (fun e =>
       print (lit "Image download warning for " ++ url ++ lit ": "
                ++ exn_str e) ;;
       ret None).

(** ** The polling loop of [monitor_tweets] *)

(** [previous_tweet_id == latest_tweet.id]; [previous_tweet_id] starts as
    [None], which equals no identifier. *)
Definition same_id (previous_tweet_id : option str) (i : str) : bool :=
  match previous_tweet_id with
  | None => false
  | Some p => str_eqb p i
  end.

(** The prefix [f"[{twitter_user}] "] of the printed lines. *)
Definition tag (a : account) : str := lit "[" ++ twitter_user a ++ lit "] ".

(** [latest_tweet.urls[0].get('expanded_url') if latest_tweet.urls else None] *)
Definition full_url_of (t : tweet) : option str :=
  match urls t with
  | [] => None
  | u :: _ => expanded_url u
  end.

(** The statements from [embed = None] to [del metadata]: the value of
    [embed] when the text is cleaned. *)
Definition embed_of (w : world) (full_url : option str) : IO (option embed) :=
  match full_url with
  | Some (c :: u) =>
      let full_url := c :: u in
      metadata <- get_metadata w full_url ;;
      match metadata with
      | Some md =>
          match thumbnail md with
          | Some (c' :: th) =>
              img_buffer <- fetch_image_to_memory w (c' :: th) ;;
              match img_buffer with
              | Some data =>
                  thumb_blob <- do_call (UploadBlob data) (upload_blob w data) ;;
                  ret (Some {| embed_title := title md;
                               embed_description := description md;
                               embed_uri := full_url;
                               embed_thumb := thumb_blob |})
              | None => ret None
              end
          | _ => ret None
          end
      | None => ret None
      end
  | _ => ret None
  end.

(** How the [try] block of the loop was left: by a [continue], after its
    own sleep, or off its end. *)
Inductive flow : Type := Continue | FallThrough.

(** The [try] block of one iteration; its value carries
    [previous_tweet_id] as the block leaves it. *)
Definition try_block (w : world) (a : account) (user_id : str)
    (previous_tweet_id : option str) : IO (flow * option str) :=
  tweets <- do_call (GetUserTweets user_id 1) (get_user_tweets w user_id 1) ;;
  match tweets with
  | [] => sleep 60 ;; ret (Continue, previous_tweet_id)
  | latest_tweet :: _ =>
      if same_id previous_tweet_id (id latest_tweet)
      then sleep 60 ;; ret (Continue, previous_tweet_id)
      else
        print (tag a ++ lit "New Tweet: " ++ firstn 50 (text latest_tweet)
                 ++ lit "...") ;;
        let full_url := fix_utm_source (full_url_of latest_tweet) in
        embed <- embed_of w full_url ;;
        let clean_text := stripped (text latest_tweet) in
        clean_text <-
          (if BLUESKY_LIMIT <? length clean_text then
             print (tag a ++ lit "Tweet too long for Bluesky ("
                      ++ of_nat (length clean_text) ++ lit " chars). Trimming.") ;;
             ret (rstrip (firstn (BLUESKY_LIMIT - 3) clean_text) ++ lit "...")
           else ret clean_text) ;;
        previous_tweet_id <-
          try_except
            (do_call (SendPost clean_text embed) (send_post w clean_text embed) ;;
             print (tag a ++ lit "Posted to Bluesky successfully.") ;;
             ret (Some (id latest_tweet)))
            (fun e =>
               print (tag a ++ lit "Bluesky post error: " ++ exn_str e) ;;
               ret previous_tweet_id) ;;
        ret (FallThrough, previous_tweet_id)
  end.

(** One iteration of [while True]: the [try] block, the handler of the
    loop, and the sleep that ends the iteration.  The assignment to
    [previous_tweet_id] is the last statement of the [try] block that can
    be reached, so the handler runs with the value the iteration started
    with. *)
Definition cycle (w : world) (a : account) (user_id : str)
    (previous_tweet_id : option str) : IO (option str) :=
  r <- try_except (try_block w a user_id previous_tweet_id)
         (fun e =>
            print (tag a ++ lit "Critical Loop Error: " ++ exn_str e) ;;
            ret (FallThrough, previous_tweet_id)) ;;
  match fst r with
  | Continue => ret (snd r)
  | FallThrough => sleep 60 ;; ret (snd r)
  end.

(** The first iterations of the loop, one per world of the list. *)
Fixpoint loop (ws : list world) (a : account) (user_id : str)
    (previous_tweet_id : option str) : IO (option str) :=
  match ws with
  | [] => ret previous_tweet_id
  | w :: ws' =>
      previous_tweet_id <- cycle w a user_id previous_tweet_id ;;
      loop ws' a user_id previous_tweet_id
  end.

(** How a relay stands after the iterations given to it: it has
    returned, or it is in its loop. *)
Inductive task_end : Type :=
| Returned
| Looping (previous_tweet_id : option str).

Definition monitor_tweets (sw : startup_world) (ws : list world) (a : account)
  : IO task_end :=
  logged_in <-
    try_except
      ((if cookies_exist sw then
          do_call LoadCookies (load_cookies sw) ;;
          print (tag a ++ lit "Logged into Twitter (Cookies).")
        else ret tt) ;;
       do_call (Login (bluesky_user a) (bluesky_pass a))
         (login sw (bluesky_user a) (bluesky_pass a)) ;;
       print (tag a ++ lit "Logged into Bluesky.") ;;
       ret true)
      (fun e =>
         print (tag a ++ lit "Login failed: " ++ exn_str e) ;;
         ret false) ;;
  if logged_in : bool then
    user <- do_call (GetUserByScreenName (twitter_user a))
              (get_user_by_screen_name sw (twitter_user a)) ;;
    match user with
    | None =>
        print (tag a ++ lit "Twitter user not found.") ;;
        ret Returned
    | Some user_id =>
        print (tag a ++ lit "Monitoring ID: " ++ user_id) ;;
        previous_tweet_id <- loop ws a user_id None ;;
        ret (Looping previous_tweet_id)
    end
  else ret Returned.

(** ** [main] *)

(** One configured relay with the world it meets. *)
Record relay : Type := {
  relay_account : account;
  relay_startup : startup_world;
  relay_worlds : list world
}.

Definition run_relay (r : relay) : IO task_end :=
  monitor_tweets (relay_startup r) (relay_worlds r) (relay_account r).

(** What becomes of a relay under [main]. *)
Inductive fate : Type :=
| Finished
| StillLooping
| Crashed (e : exn)
| Cancelled.

Fixpoint first_raise (rs : list (result task_end)) : option exn :=
  match rs with
  | [] => None
  | Raise e :: _ => Some e
  | Ok _ :: rs' => first_raise rs'
  end.

(** [asyncio.gather] of the tasks, awaited under [asyncio.run(main())]: without
    [return_exceptions], an exception that leaves one task is raised in
    [main]; [main] ends with it and [asyncio.run] cancels the tasks that
    are still in their loops.  With no exception every task is left to
    itself. *)
Definition main (relays : list relay) : result unit * list fate :=
  let rs := map (fun r => outcome (run_relay r)) relays in
  match first_raise rs with
  | Some e =>
      (Raise e,
       map (fun r => match r with
                     | Raise e' => Crashed e'
                     | Ok Returned => Finished
                     | Ok (Looping _) => Cancelled
                     end) rs)
  | None =>
      (Ok tt,
       map (fun r => match r with
                     | Raise e' => Crashed e'
                     | Ok Returned => Finished
                     | Ok (Looping _) => StillLooping
                     end) rs)
  end.

(** ** Vocabulary of the properties *)

Definition is_send (ev : event) : bool :=
  match ev with
  | Called (SendPost _ _) _ => true
  | _ => false
  end.

Definition is_successful_send (ev : event) : bool :=
  match ev with
  | Called (SendPost _ _) None => true
  | _ => false
  end.

Definition is_poll (ev : event) : bool :=
  match ev with
  | Called (GetUserTweets _ _) _ => true
  | _ => false
  end.

(** The number of times publish was invoked, and the number of times it
    returned. *)
Definition sends (t : list event) : nat := length (filter is_send t).
Definition successful_sends (t : list event) : nat :=
  length (filter is_successful_send t).
Definition polls (t : list event) : nat := length (filter is_poll t).

(** The post a poll fetches, if it fetches one. *)
Definition latest (w : world) (user_id : str) : option tweet :=
  match get_user_tweets w user_id 1 with
  | Ok (t :: _) => Some t
  | _ => None
  end.

(** No call of the world is interrupted by an exception outside
    [Exception]. *)
Definition errors_only {A} (r : result A) : Prop :=
  forall m, r <> Raise (BaseException m).

Record world_errors_only (w : world) : Prop := {
  weo_tweets : forall u n, errors_only (get_user_tweets w u n);
  weo_get : forall u t, errors_only (session_get w u t);
  weo_content_read :
    forall u t r n, session_get w u t = Ok r -> errors_only (content_read r n);
  weo_read : forall u t r, session_get w u t = Ok r -> errors_only (read r);
  weo_fromstring : forall b, errors_only (fromstring w b);
  weo_upload : forall b, errors_only (upload_blob w b);
  weo_send : forall s e, errors_only (send_post w s e)
}.

(** The spans (start, length) of the short links a scan of [s] finds. *)
Definition short_url_spans (s : str) : list (nat * nat) :=
  Re.finditer (Re.match_here SHORT_URL_PATTERN) s.

(** The three conditions of an embed for the rewritten URL [full_url] of
    a post: the metadata fetch gave metadata, the metadata holds a
    thumbnail URL, the image fetch gave the image. *)
Definition embed_ready (w : world) (full_url : option str)
    (url : str) (md : metadata) (th : str) (data : bytes) : Prop :=
  full_url = Some url /\ url <> []
  /\ outcome (get_metadata w url) = Ok (Some md)
  /\ thumbnail md = Some th /\ th <> []
  /\ outcome (fetch_image_to_memory w th) = Ok (Some data).

(** One of the three is absent (or the post has no URL). *)
Definition embed_absent (w : world) (full_url : option str) : Prop :=
  truthy full_url = false
  \/ exists url, full_url = Some url /\ url <> []
       /\ (outcome (get_metadata w url) = Ok None
           \/ exists md, outcome (get_metadata w url) = Ok (Some md)
                /\ (truthy (thumbnail md) = false
                    \/ exists th, thumbnail md = Some th /\ th <> []
                         /\ outcome (fetch_image_to_memory w th) = Ok None)).

(** The events of an iteration before the embed is built, and the line
    printed when the text is trimmed. *)
Definition new_tweet_events (a : account) (user_id : str) (tw : tweet)
  : list event :=
  [Called (GetUserTweets user_id 1) None;
   Print (tag a ++ lit "New Tweet: " ++ firstn 50 (text tw) ++ lit "...")].

Definition trim_events (a : account) (tw : tweet) : list event :=
  if BLUESKY_LIMIT <? length (stripped (text tw)) then
    [Print (tag a ++ lit "Tweet too long for Bluesky ("
              ++ of_nat (length (stripped (text tw))) ++ lit " chars). Trimming.")]
  else [].

(** The ways an iteration can go. *)
Inductive cycle_kind (w : world) (a : account) (uid : str) (prev : option str)
  : list event -> result (option str) -> Prop :=
| Idle :
    (** nothing fetched, or the post already relayed *)
    (get_user_tweets w uid 1 = Ok []
     \/ exists tw rest, get_user_tweets w uid 1 = Ok (tw :: rest)
                        /\ prev = Some (id tw)) ->
    cycle_kind w a uid prev
      [Called (GetUserTweets uid 1) None; Sleep 60] (Ok prev)
| Skipped (t : list event) (m : str) :
    (** an error before the publish call, caught by the loop *)
    sends t = 0 -> polls t = 1 ->
    cycle_kind w a uid prev
      (t ++ [Print (tag a ++ lit "Critical Loop Error: " ++ m); Sleep 60])
      (Ok prev)
| Interrupted (t : list event) (m : str) :
    (** an interruption before the publish call *)
    sends t = 0 -> polls t = 1 ->
    cycle_kind w a uid prev t (Raise (BaseException m))
| PublishInterrupted (t : list event) (tw : tweet) (e : option embed) (m : str) :
    latest w uid = Some tw -> same_id prev (id tw) = false ->
    sends t = 0 -> polls t = 1 ->
    outcome (embed_of w (fix_utm_source (full_url_of tw))) = Ok e ->
    send_post w (sanitize (text tw)) e = Raise (BaseException m) ->
    cycle_kind w a uid prev
      (t ++ [Called (SendPost (sanitize (text tw)) e) (Some (BaseException m))])
      (Raise (BaseException m))
| Published (t : list event) (tw : tweet) (e : option embed) :
    latest w uid = Some tw -> same_id prev (id tw) = false ->
    sends t = 0 -> polls t = 1 ->
    outcome (embed_of w (fix_utm_source (full_url_of tw))) = Ok e ->
    send_post w (sanitize (text tw)) e = Ok tt ->
    cycle_kind w a uid prev
      (t ++ [Called (SendPost (sanitize (text tw)) e) None;
             Print (tag a ++ lit "Posted to Bluesky successfully.");
             Sleep 60])
      (Ok (Some (id tw)))
| PublishFailed (t : list event) (tw : tweet) (e : option embed) (m : str) :
    latest w uid = Some tw -> same_id prev (id tw) = false ->
    sends t = 0 -> polls t = 1 ->
    outcome (embed_of w (fix_utm_source (full_url_of tw))) = Ok e ->
    send_post w (sanitize (text tw)) e = Raise (Exception m) ->
    cycle_kind w a uid prev
      (t ++ [Called (SendPost (sanitize (text tw)) e) (Some (Exception m));
             Print (tag a ++ lit "Bluesky post error: " ++ m);
             Sleep 60])
      (Ok prev).

(** ** Counting the other events *)

Definition is_get (ev : event) : bool :=
  match ev with
  | Called (SessionGet _ _) _ => true
  | _ => false
  end.

Definition is_upload (ev : event) : bool :=
  match ev with
  | Called (UploadBlob _) _ => true
  | _ => false
  end.

Definition is_sleep (ev : event) : bool :=
  match ev with
  | Sleep _ => true
  | _ => false
  end.

(** The numbers of HTTP requests, of blob uploads and of sleeps. *)
Definition http_gets (t : list event) : nat := length (filter is_get t).
Definition uploads (t : list event) : nat := length (filter is_upload t).
Definition sleeps (t : list event) : nat := length (filter is_sleep t).

(** The error [get_metadata] catches, with its message: raised by the
    request, by the read of the prefix or by the parser. *)
Definition metadata_error (w : world) (url : str) (m : str) : Prop :=
  session_get w url 10 = Raise (Exception m)
  \/ exists r, session_get w url 10 = Ok r /\ status r = 200%Z
       /\ (content_read r (1024 * 10) = Raise (Exception m)
           \/ exists chunk, content_read r (1024 * 10) = Ok chunk
                /\ fromstring w chunk = Raise (Exception m)).

(** The events of a start of [monitor_tweets] up to the login. *)
Definition cookie_events (sw : startup_world) (a : account) : list event :=
  if cookies_exist sw then
    [Called LoadCookies None;
     Print (tag a ++ lit "Logged into Twitter (Cookies).")]
  else [].

(** ** Scenarios

    The post, the page and the worlds of the scenarios of the
    specification. *)

Definition news : account :=
  {| twitter_user := lit "news";
     bluesky_user := lit "news.bsky.social";
     bluesky_pass := lit "app-password" |}.

Definition weather : account :=
  {| twitter_user := lit "weather";
     bluesky_user := lit "weather.bsky.social";
     bluesky_pass := lit "app-password" |}.

Definition link_tweet : tweet :=
  {| id := lit "1001";
     text := lit "Check this out https://t.co/abc123";
     urls := [{| expanded_url :=
                   Some (lit "https://example.com/a?utm_source=twitter") |}] |}.

Definition long_tweet : tweet :=
  {| id := lit "1002"; text := repeat 97%N 310; urls := [] |}.

Definition page : tree :=
  {| findtext_title := Some (lit "Ex");
     xpath_og_description := [lit "D"];
     xpath_name_description := [];
     xpath_og_image := [lit "http://img/x.png"] |}.

Definition ok_response (body : bytes) : response :=
  {| status := 200;
     content_read := fun n => Ok (firstn n body);
     read := Ok body |}.

Definition scenario_world (tweets : result (list tweet))
    (get : str -> Z -> result response)
    (upload : result str) (send : result unit) : world :=
  {| get_user_tweets := fun _ _ => tweets;
     session_get := get;
     fromstring := fun _ => Ok page;
     upload_blob := fun _ => upload;
     send_post := fun _ _ => send |}.

Definition world_ok : world :=
  scenario_world (Ok [link_tweet]) (fun _ _ => Ok (ok_response []))
    (Ok (lit "blobref")) (Ok tt).

Definition world_long : world :=
  scenario_world (Ok [long_tweet]) (fun _ _ => Ok (ok_response []))
    (Ok (lit "blobref")) (Ok tt).

Definition world_metadata_timeout : world :=
  scenario_world (Ok [link_tweet])
    (fun _ _ => Raise (Exception (lit "timeout")))
    (Ok (lit "blobref")) (Ok tt).

Definition world_upload_error : world :=
  scenario_world (Ok [link_tweet]) (fun _ _ => Ok (ok_response []))
    (Raise (Exception (lit "upload failed"))) (Ok tt).

Definition world_publish_error : world :=
  scenario_world (Ok [link_tweet]) (fun _ _ => Ok (ok_response []))
    (Ok (lit "blobref")) (Raise (Exception (lit "rate limit"))).

(** A page answered with a status of the 2xx class other than 200. *)
Definition created_response : response :=
  {| status := 201;
     content_read := fun n => Ok (firstn n []);
     read := Ok [] |}.

Definition world_status_201 : world :=
  scenario_world (Ok [link_tweet]) (fun _ _ => Ok created_response)
    (Ok (lit "blobref")) (Ok tt).

Definition startup_ok : startup_world :=
  {| cookies_exist := true;
     load_cookies := Ok tt;
     login := fun _ _ => Ok tt;
     get_user_by_screen_name := fun _ => Ok (Some (lit "42")) |}.

Definition startup_login_error : startup_world :=
  {| cookies_exist := true;
     load_cookies := Ok tt;
     login := fun _ _ => Raise (Exception (lit "invalid password"));
     get_user_by_screen_name := fun _ => Ok (Some (lit "42")) |}.

Definition startup_resolution_error : startup_world :=
  {| cookies_exist := true;
     load_cookies := Ok tt;
     login := fun _ _ => Ok tt;
     get_user_by_screen_name :=
       fun _ => Raise (Exception (lit "The user does not exist.")) |}.

Definition link_embed : embed :=
  {| embed_title := lit "Ex";
     embed_description := lit "D";
     embed_uri := lit "https://example.com/a?utm_source=bluesky";
     embed_thumb := lit "blobref" |}.

(** * Properties *)

(** ** Strings and substitution *)

Lemma char_eqb_eq (a b : char) : char_eqb a b = true <-> a = b.
Proof. apply N.eqb_eq. Qed.

Lemma str_eqb_eq (a b : str) : str_eqb a b = true <-> a = b.
Proof.
  revert b; induction a as [|x a IH]; intros [|y b]; simpl; split;
    try congruence; try reflexivity.
  - intros H. apply andb_true_iff in H as [H1 H2].
    apply char_eqb_eq in H1. apply IH in H2. congruence.
  - intros H. injection H as -> ->. apply andb_true_iff. split.
    + now apply char_eqb_eq.
    + now apply IH.
Qed.

Lemma startswith_split (p s : str) :
  startswith p s = true -> s = p ++ skipn (length p) s.
Proof.
  revert s; induction p as [|x p IH]; intros s H; simpl in *.
  - reflexivity.
  - destruct s as [|y s]; [discriminate|].
    destruct (char_eqb y x) eqn:E; [|discriminate].
    apply char_eqb_eq in E. subst y. f_equal. now apply IH.
Qed.

Lemma startswith_app (p r : str) : startswith p (p ++ r) = true.
Proof.
  induction p as [|x p IH]; simpl; [reflexivity|].
  unfold char_eqb. now rewrite N.eqb_refl.
Qed.

Lemma match_here_lits (p s : str) :
  Re.match_here (map Re.Lit p) s
  = if startswith p s then Some (length p) else None.
Proof.
  revert s; induction p as [|x p IH]; intros s; simpl; [reflexivity|].
  destruct s as [|y s]; [reflexivity|].
  destruct (char_eqb y x); [|reflexivity].
  rewrite IH. now destruct (startswith p s).
Qed.

Section SubFacts.

Variable matcher : str -> option nat.
Variable repl : str -> str.

Let sub := Re.sub matcher repl.

Lemma sub_from_skipn (s : str) (k : nat) :
  Re.sub_from matcher repl k s = sub (skipn k s).
Proof.
  revert k; induction s as [|c s IH]; intros k.
  - now destruct k.
  - destruct k as [|k]; [reflexivity|]. simpl. apply IH.
Qed.

Lemma sub_nil : sub [] = [].
Proof. reflexivity. Qed.

Lemma sub_cons_match (c : char) (s : str) (n : nat) :
  matcher (c :: s) = Some (S n) ->
  sub (c :: s) = repl (firstn (S n) (c :: s)) ++ sub (skipn n s).
Proof.
  intros H. unfold sub, Re.sub at 1. simpl Re.sub_from. rewrite H.
  now rewrite sub_from_skipn.
Qed.

Lemma sub_cons_nomatch (c : char) (s : str) :
  (forall n, matcher (c :: s) <> Some (S n)) ->
  sub (c :: s) = c :: sub s.
Proof.
  intros H. unfold sub, Re.sub. simpl Re.sub_from.
  destruct (matcher (c :: s)) as [[|n]|] eqn:E; try reflexivity.
  now destruct (H n).
Qed.

(** The spans of [finditer] start at or after the position scanned. *)
Lemma finditer_from_ge (s : str) (pos skip : nat) :
  Forall (fun span => pos + skip <= fst span)
         (Re.finditer_from matcher pos skip s).
Proof.
  revert pos skip; induction s as [|c s IH]; intros pos skip; simpl.
  - constructor.
  - destruct skip as [|k].
    + destruct (matcher (c :: s)) as [[|n]|].
      * eapply Forall_impl; [|apply IH]. simpl; intros; lia.
      * constructor; [simpl; lia|].
        eapply Forall_impl; [|apply IH]. simpl; intros; lia.
      * eapply Forall_impl; [|apply IH]. simpl; intros; lia.
    + eapply Forall_impl; [|apply IH]. simpl; intros; lia.
Qed.

Lemma splice_cons (pos : nat) (spans : list (nat * nat)) (c : char) (s : str) :
  Forall (fun span => S pos <= fst span) spans ->
  Re.splice repl pos spans (c :: s) = c :: Re.splice repl (S pos) spans s.
Proof.
  intros H. destruct spans as [|[i m] rest]; [reflexivity|].
  inversion H as [|x l Hi _]; subst. simpl in Hi. simpl Re.splice.
  replace (i - pos) with (S (i - S pos)) by lia. reflexivity.
Qed.

(** [sub] is the text between the spans of [finditer], with the
    replacement in place of each span. *)
Lemma sub_from_splice (s : str) (pos skip : nat) :
  Re.sub_from matcher repl skip s
  = Re.splice repl (pos + skip)
      (Re.finditer_from matcher pos skip s) (skipn skip s).
Proof.
  revert pos skip; induction s as [|c s IH]; intros pos skip.
  - now destruct skip.
  - destruct skip as [|k].
    + simpl Re.sub_from. simpl Re.finditer_from. simpl skipn.
      rewrite Nat.add_0_r.
      destruct (matcher (c :: s)) as [[|n]|] eqn:E.
      * rewrite splice_cons.
        -- f_equal. rewrite (IH (S pos) 0). now rewrite Nat.add_0_r.
        -- eapply Forall_impl; [|apply finditer_from_ge]. simpl; intros; lia.
      * simpl Re.splice. rewrite Nat.sub_diag. simpl.
        do 2 f_equal. rewrite (IH (S pos) n).
        f_equal. lia.
      * rewrite splice_cons.
        -- f_equal. rewrite (IH (S pos) 0). now rewrite Nat.add_0_r.
        -- eapply Forall_impl; [|apply finditer_from_ge]. simpl; intros; lia.
    + simpl. rewrite (IH (S pos) k). f_equal. lia.
Qed.

Lemma sub_splice (s : str) :
  sub s = Re.splice repl 0 (Re.finditer matcher s) s.
Proof. apply (sub_from_splice s 0 0). Qed.

(** Every match in the text is a span of [finditer] or starts inside
    one that starts before it. *)
Hypothesis matcher_nil : forall n, matcher [] <> Some (S n).

Lemma finditer_from_covers (s : str) (pos skip k n : nat) :
  skip <= k ->
  matcher (skipn k s) = Some (S n) ->
  exists i m, In (i, m) (Re.finditer_from matcher pos skip s)
    /\ ((i = pos + k /\ m = S n) \/ (i < pos + k /\ pos + k < i + m)).
Proof.
  revert pos skip k; induction s as [|c s IH]; intros pos skip k Hk Hm.
  - exfalso. rewrite skipn_nil in Hm. now apply (matcher_nil Hm).
  - destruct skip as [|j].
    + simpl Re.finditer_from.
      destruct k as [|k'].
      * simpl in Hm. rewrite Hm. exists pos, (S n). split; [now left|].
        left. split; [lia|reflexivity].
      * simpl in Hm.
        destruct (matcher (c :: s)) as [[|m']|] eqn:E.
        -- destruct (IH (S pos) 0 k' (Nat.le_0_l _) Hm) as (i & m & Hin & H).
           exists i, m. split; [exact Hin|]. lia.
        -- destruct (Nat.lt_ge_cases k' m') as [Hlt|Hge].
           ++ exists pos, (S m'). split; [now left|]. right. lia.
           ++ destruct (IH (S pos) m' k' Hge Hm) as (i & m & Hin & H).
              exists i, m. split; [now right|]. lia.
        -- destruct (IH (S pos) 0 k' (Nat.le_0_l _) Hm) as (i & m & Hin & H).
           exists i, m. split; [exact Hin|]. lia.
    + destruct k as [|k']; [lia|]. simpl in Hm. simpl Re.finditer_from.
      destruct (IH (S pos) j k' (le_S_n _ _ Hk) Hm) as (i & m & Hin & H).
      exists i, m. split; [exact Hin|]. lia.
Qed.

(** Each span of [finditer] is the match found at its start. *)
Lemma finditer_from_sound (s : str) (pos skip i m : nat) :
  In (i, m) (Re.finditer_from matcher pos skip s) ->
  pos <= i /\ matcher (skipn (i - pos) s) = Some m /\ 0 < m.
Proof.
  revert pos skip; induction s as [|c s IH]; intros pos skip Hin.
  - destruct Hin.
  - assert (Hrec : forall sk, In (i, m) (Re.finditer_from matcher (S pos) sk s) ->
              pos <= i /\ matcher (skipn (i - pos) (c :: s)) = Some m /\ 0 < m).
    { intros sk H. destruct (IH _ _ H) as (H1 & H2 & H3).
      replace (i - pos) with (S (i - S pos)) by lia. simpl. split; [lia|]. now split. }
    destruct skip as [|j]; simpl in Hin.
    + destruct (matcher (c :: s)) as [[|m']|] eqn:E; try now apply (Hrec 0).
      destruct Hin as [Heq|Hin]; [|now apply (Hrec m')].
      injection Heq as <- <-. rewrite Nat.sub_diag. simpl.
      split; [lia|]. split; [exact E|lia].
    + now apply (Hrec j).
Qed.

End SubFacts.

Lemma match_here_le (p : Re.pattern) (s : str) (n : nat) :
  Re.match_here p s = Some n -> n <= length s.
Proof.
  revert s n; induction p as [|a p IH]; intros s n H.
  - injection H as <-. lia.
  - destruct a as [c| |cls]; simpl in H.
    + destruct s as [|x s]; [discriminate|].
      destruct (char_eqb x c); [|discriminate].
      destruct (Re.match_here p s) as [k|] eqn:E; [|discriminate].
      injection H as <-. apply IH in E. simpl. lia.
    + destruct s as [|x s]; [discriminate|].
      destruct (char_eqb x 10%N); [discriminate|].
      destruct (Re.match_here p s) as [k|] eqn:E; [|discriminate].
      injection H as <-. apply IH in E. simpl. lia.
    + assert (Hlen : length (Re.take_while cls s) <= length s).
      { clear. induction s as [|c s IHs]; simpl; [lia|].
        destruct (cls c); simpl; lia. }
      revert Hlen H. generalize (length (Re.take_while cls s)) as k.
      induction k as [|k IHk]; intros Hlen H; [discriminate|].
      destruct (Re.match_here p (skipn (S k) s)) as [m|] eqn:E.
      * injection H as <-. apply IH in E. rewrite length_skipn in E. lia.
      * apply IHk; [lia|exact H].
Qed.

Lemma match_here_nil (p : Re.pattern) (n : nat) :
  Re.match_here p [] <> Some (S n).
Proof. intros H. apply match_here_le in H. simpl in H. lia. Qed.

(** ** [fix_utm_source] *)

Lemma utm_twitter_chars :
  utm_twitter
  = [117; 116; 109; 95; 115; 111; 117; 114; 99; 101; 61;
     116; 119; 105; 116; 116; 101; 114]%N.
Proof. reflexivity. Qed.

Lemma utm_bluesky_chars :
  utm_bluesky
  = [117; 116; 109; 95; 115; 111; 117; 114; 99; 101; 61;
     98; 108; 117; 101; 115; 107; 121]%N.
Proof. reflexivity. Qed.

Lemma utm_match (s : str) :
  Re.match_here UTM_PATTERN s
  = if startswith utm_twitter s then Some 18 else None.
Proof. unfold UTM_PATTERN, Re.lits. now rewrite match_here_lits. Qed.

Lemma rewrite_nil : rewrite [] = [].
Proof. reflexivity. Qed.

Lemma str_length_ind (P : str -> Prop) :
  (forall s, (forall t, length t < length s -> P t) -> P s) ->
  forall s, P s.
Proof.
  intros H s. apply H.
  induction s as [|c s IH]; intros t Ht; simpl in Ht; [lia|].
  apply H. intros t' Ht'. apply IH. lia.
Qed.

Lemma rewrite_match (r : str) :
  rewrite (utm_twitter ++ r) = utm_bluesky ++ rewrite r.
Proof.
  unfold rewrite.
  pose proof (utm_match (utm_twitter ++ r)) as Hm.
  rewrite startswith_app in Hm.
  rewrite utm_twitter_chars in *. cbn [app] in *.
  rewrite (sub_cons_match _ _ _ _ Hm).
  reflexivity.
Qed.

Lemma rewrite_nomatch (c : char) (s : str) :
  startswith utm_twitter (c :: s) = false ->
  rewrite (c :: s) = c :: rewrite s.
Proof.
  intros H. unfold rewrite. apply sub_cons_nomatch.
  intros n. rewrite utm_match, H. discriminate.
Qed.

(** The three cases of [rewrite], by the shape of its argument. *)
Lemma rewrite_cases (u : str) :
  u = []
  \/ (exists r, u = utm_twitter ++ r /\ length r < length u
                /\ rewrite u = utm_bluesky ++ rewrite r)
  \/ (exists c r, u = c :: r /\ startswith utm_twitter u = false
                  /\ rewrite u = c :: rewrite r).
Proof.
  destruct u as [|c u]; [now left|]. right.
  destruct (startswith utm_twitter (c :: u)) eqn:E.
  - left. exists (skipn (length utm_twitter) (c :: u)).
    apply startswith_split in E. split; [exact E|]. split.
    + rewrite length_skipn. simpl. lia.
    + rewrite E at 1. apply rewrite_match.
  - right. exists c, u. split; [reflexivity|]. split; [reflexivity|].
    now apply rewrite_nomatch.
Qed.

Lemma rewrite_length (u : str) : length (rewrite u) = length u.
Proof.
  induction u as [u IH] using str_length_ind.
  destruct (rewrite_cases u) as [->|[(r & E & Hlt & ->)|(c & r & E & _ & ->)]].
  - reflexivity.
  - rewrite E. rewrite !length_app. now rewrite (IH r Hlt).
  - subst u. simpl. f_equal. apply IH. simpl. lia.
Qed.

(** No occurrence of the token begins inside the replacement. *)
Lemma bluesky_no_token (k : nat) (x : str) :
  k < 18 -> startswith utm_twitter (skipn k (utm_bluesky ++ x)) = false.
Proof.
  intros Hk. rewrite utm_twitter_chars, utm_bluesky_chars.
  do 18 (destruct k as [|k]; [reflexivity|]). lia.
Qed.

(** A suffix of the token at the head of the output is at the head of
    the input. *)
Lemma rewrite_suffix_head (u : str) (j : nat) :
  startswith (skipn j utm_twitter) (rewrite u) = true ->
  startswith (skipn j utm_twitter) u = true.
Proof.
  revert j. induction u as [u IH] using str_length_ind. intros j H.
  destruct (rewrite_cases u) as [->|[(r & E & Hlt & Hr)|(c & r & E & Hn & Hr)]].
  - exact H.
  - rewrite Hr in H. rewrite E. revert H.
    rewrite utm_twitter_chars, utm_bluesky_chars.
    do 18 (destruct j as [|j]; [vm_compute; discriminate|]).
    intros _. simpl. now rewrite skipn_nil.
  - rewrite Hr in H. subst u.
    destruct (skipn j utm_twitter) as [|x q] eqn:Eq; [reflexivity|].
    simpl in H |- *. destruct (char_eqb c x); [|discriminate].
    assert (Hq : q = skipn (S j) utm_twitter).
    { clear -Eq. revert Eq. rewrite utm_twitter_chars.
      do 18 (destruct j as [|j]; [simpl; congruence|]).
      simpl. rewrite skipn_nil. discriminate. }
    rewrite Hq in *. apply IH; [simpl; lia|exact H].
Qed.
Lemma skipn_app_ge (A : Type) (a x : list A) (k : nat) :
  length a <= k -> skipn k (a ++ x) = skipn (k - length a) x.
Proof. intros H. rewrite skipn_app, skipn_all2 by exact H. reflexivity. Qed.

(** The output holds no occurrence of the token. *)
Lemma rewrite_no_token (u : str) (k : nat) :
  startswith utm_twitter (skipn k (rewrite u)) = false.
Proof.
  revert k. induction u as [u IH] using str_length_ind. intros k.
  destruct (rewrite_cases u) as [->|[(r & E & Hlt & Hr)|(c & r & E & Hn & Hr)]].
  - rewrite rewrite_nil, skipn_nil. reflexivity.
  - rewrite Hr. destruct (Nat.lt_ge_cases k 18) as [Hk|Hk].
    + now apply bluesky_no_token.
    + rewrite skipn_app_ge by exact Hk. now apply IH.
  - rewrite Hr. destruct k as [|k].
    + simpl skipn. rewrite <- Hr.
      destruct (startswith utm_twitter (rewrite u)) eqn:F; [|reflexivity].
      apply (rewrite_suffix_head u 0) in F.
      change (startswith utm_twitter u = true) in F. congruence.
    + simpl. apply IH. subst u. simpl. lia.
Qed.

(** Without an occurrence of the token the text is returned as it is. *)
Lemma rewrite_identity (u : str) :
  (forall k, startswith utm_twitter (skipn k u) = false) -> rewrite u = u.
Proof.
  induction u as [|c u IH]; intros H; [reflexivity|].
  rewrite rewrite_nomatch by apply (H 0).
  f_equal. apply IH. intros k. apply (H (S k)).
Qed.

Lemma rewrite_idempotent (u : str) : rewrite (rewrite u) = rewrite u.
Proof. apply rewrite_identity. intros k. apply rewrite_no_token. Qed.

(** Two occurrences of the token do not overlap. *)
Lemma token_no_overlap (r : str) (k : nat) :
  0 < k < 18 -> startswith utm_twitter (skipn k (utm_twitter ++ r)) = false.
Proof.
  intros Hk. rewrite utm_twitter_chars.
  destruct k as [|k]; [lia|].
  do 17 (destruct k as [|k]; [reflexivity|]). lia.
Qed.

(** Every occurrence of the token in the input is the replacement in
    the output, at the same place. *)
Lemma rewrite_replaces (u : str) (k : nat) :
  startswith utm_twitter (skipn k u) = true ->
  startswith utm_bluesky (skipn k (rewrite u)) = true.
Proof.
  revert k. induction u as [u IH] using str_length_ind. intros k H.
  destruct (rewrite_cases u) as [->|[(r & E & Hlt & Hr)|(c & r & E & Hn & Hr)]].
  - rewrite skipn_nil in H. discriminate.
  - rewrite Hr. rewrite E in H.
    destruct (Nat.lt_ge_cases k 18) as [Hk|Hk].
    + destruct k as [|k]; [apply startswith_app|].
      rewrite token_no_overlap in H by lia. discriminate.
    + rewrite skipn_app_ge in * by exact Hk. now apply IH.
  - rewrite Hr. subst u. destruct k as [|k]; [cbn [skipn] in H; congruence|].
    cbn [skipn] in *. apply IH; [simpl; lia|exact H].
Qed.

(** Where output and input differ, the place is one of the last seven
    characters of an occurrence of the token in the input. *)
Lemma rewrite_elsewhere (u : str) (i : nat) :
  nth_error (rewrite u) i <> nth_error u i ->
  exists k, k + 11 <= i < k + 18 /\ startswith utm_twitter (skipn k u) = true.
Proof.
  revert i. induction u as [u IH] using str_length_ind. intros i H.
  destruct (rewrite_cases u) as [->|[(r & E & Hlt & Hr)|(c & r & E & Hn & Hr)]].
  - now destruct H.
  - rewrite Hr in H. rewrite E in H |- *.
    destruct (Nat.lt_ge_cases i 18) as [Hi|Hi].
    + exists 0. split; [|apply startswith_app].
      destruct (Nat.lt_ge_cases i 11) as [Hi'|Hi']; [|lia].
      exfalso. apply H. rewrite utm_twitter_chars, utm_bluesky_chars.
      do 11 (destruct i as [|i]; [reflexivity|]). lia.
    + rewrite !nth_error_app2 in H by exact Hi.
      destruct (IH r Hlt _ H) as (k & Hk & Hs).
      exists (k + 18). split; [change (length utm_bluesky) with 18 in Hk; lia|].
      rewrite skipn_app_ge by (change (length utm_twitter) with 18; lia).
      replace (k + 18 - length utm_twitter) with k
        by (change (length utm_twitter) with 18; lia).
      exact Hs.
  - rewrite Hr in H. subst u. destruct i as [|i]; [now destruct H|].
    simpl in H. destruct (IH r (Nat.lt_succ_diag_r _) _ H) as (k & Hk & Hs).
    exists (S k). split; [lia|exact Hs].
Qed.

(** C5. [fix_utm_source] passes an absent or empty URL through; on any
    other URL it replaces each occurrence of the exact, case-sensitive
    token [utm_source=twitter] by [utm_source=bluesky] in place and
    changes no other character; it is idempotent; and it is the identity
    on a URL that does not contain the token. *)
Theorem fix_utm_source_laws :
  fix_utm_source None = None
  /\ fix_utm_source (Some []) = Some []
  /\ (forall u, fix_utm_source (Some u) = Some (rewrite u))
  /\ (forall u, length (rewrite u) = length u)
  /\ (forall u k, startswith utm_twitter (skipn k u) = true ->
                  startswith utm_bluesky (skipn k (rewrite u)) = true)
  /\ (forall u i, nth_error (rewrite u) i <> nth_error u i ->
        exists k, k + 11 <= i < k + 18
                  /\ startswith utm_twitter (skipn k u) = true)
  /\ (forall url, fix_utm_source (fix_utm_source url) = fix_utm_source url)
  /\ (forall u, (forall k, startswith utm_twitter (skipn k u) = false) ->
                fix_utm_source (Some u) = Some u).
Proof.
  assert (Hfix : forall u, fix_utm_source (Some u) = Some (rewrite u)).
  { intros [|c u]; reflexivity. }
  repeat split; try reflexivity; try exact Hfix.
  - apply rewrite_length.
  - apply rewrite_replaces.
  - apply rewrite_elsewhere.
  - intros [u|]; [|reflexivity]. rewrite !Hfix. f_equal. apply rewrite_idempotent.
  - intros u H. rewrite Hfix. f_equal. now apply rewrite_identity.
Qed.

(** The token is matched as written: another case is left alone. *)
Example fix_utm_source_case :
  fix_utm_source (Some (lit "https://e.com/?UTM_SOURCE=twitter&utm_source=Twitter"))
  = Some (lit "https://e.com/?UTM_SOURCE=twitter&utm_source=Twitter").
Proof. vm_compute. reflexivity. Qed.

Example fix_utm_source_example :
  fix_utm_source (Some (lit "https://example.com/a?utm_source=twitter"))
  = Some (lit "https://example.com/a?utm_source=bluesky").
Proof. vm_compute. reflexivity. Qed.

(** ** The short-link pattern *)

Lemma match_here_lits_app (p : str) (q : Re.pattern) (s : str) :
  Re.match_here (map Re.Lit p ++ q) s
  = if startswith p s
    then option_map (Nat.add (length p)) (Re.match_here q (skipn (length p) s))
    else None.
Proof.
  revert s; induction p as [|x p IH]; intros s; simpl.
  - now destruct (Re.match_here q s).
  - destruct s as [|y s]; [reflexivity|].
    destruct (char_eqb y x); [|reflexivity].
    rewrite IH. destruct (startswith p s); [|reflexivity].
    now destruct (Re.match_here q (skipn (length p) s)).
Qed.

Lemma match_here_plus_last (cls : char -> bool) (s : str) :
  Re.match_here [Re.OneOrMore cls] s
  = match length (Re.take_while cls s) with
    | O => None
    | S k => Some (S k)
    end.
Proof.
  simpl. destruct (length (Re.take_while cls s)) as [|k]; [reflexivity|].
  now rewrite Nat.add_0_r.
Qed.

(** A match of the pattern reads [https://t], one character that is not
    a newline, [co/] and the longest run of letters and digits that
    follows, which is not empty. *)
Lemma short_url_match (s : str) :
  Re.match_here SHORT_URL_PATTERN s
  = if startswith (lit "https://t") s then
      match skipn 9 s with
      | c :: s1 =>
          if char_eqb c 10%N then None
          else if startswith (lit "co/") s1 then
            match length (Re.take_while alnum (skipn 3 s1)) with
            | O => None
            | S k => Some (14 + k)
            end
          else None
      | [] => None
      end
    else None.
Proof.
  unfold SHORT_URL_PATTERN, Re.lits. rewrite match_here_lits_app.
  destruct (startswith (lit "https://t") s); [|reflexivity].
  change (length (lit "https://t")) with 9.
  destruct (skipn 9 s) as [|c s1]; [reflexivity|].
  cbn [app Re.match_here]. destruct (char_eqb c 10%N); [reflexivity|].
  rewrite match_here_lits_app.
  destruct (startswith (lit "co/") s1); [|reflexivity].
  rewrite match_here_plus_last. change (length (lit "co/")) with 3.
  destruct (length (Re.take_while alnum (skipn 3 s1))); reflexivity.
Qed.

Lemma short_url_match_pos (s : str) (n : nat) :
  Re.match_here SHORT_URL_PATTERN s = Some n -> 14 <= n.
Proof.
  rewrite short_url_match.
  destruct (startswith (lit "https://t") s); [|discriminate].
  destruct (skipn 9 s) as [|c s1]; [discriminate|].
  destruct (char_eqb c 10%N); [discriminate|].
  destruct (startswith (lit "co/") s1); [|discriminate].
  destruct (length (Re.take_while alnum (skipn 3 s1))); [discriminate|].
  intros H. injection H as <-. lia.
Qed.

Lemma take_while_app_stop (f : char -> bool) (tok rest : str) :
  forallb f tok = true ->
  match rest with [] => True | c :: _ => f c = false end ->
  Re.take_while f (tok ++ rest) = tok.
Proof.
  intros Htok Hrest. induction tok as [|x tok IH]; simpl in *.
  - destruct rest as [|c rest]; [reflexivity|]. simpl. now rewrite Hrest.
  - apply andb_true_iff in Htok as [Hx Htok]. rewrite Hx. f_equal. now apply IH.
Qed.

(** A link of the shortener, [https://t.co/] and a token of letters and
    digits that ends where it ends in the text, is a match. *)
Lemma short_link_is_match (s tok rest : str) (k : nat) :
  skipn k s = lit "https://t.co/" ++ tok ++ rest ->
  tok <> [] ->
  forallb alnum tok = true ->
  match rest with [] => True | c :: _ => alnum c = false end ->
  short_url_at s k (13 + length tok).
Proof.
  intros Hs Hne Htok Hrest. unfold short_url_at. rewrite Hs, short_url_match.
  change (lit "https://t.co/") with (lit "https://t" ++ 46%N :: lit "co/").
  rewrite <- app_assoc. rewrite startswith_app.
  rewrite skipn_app_ge by (simpl; lia). change (9 - length (lit "https://t")) with 0.
  rewrite skipn_O. cbn [app]. change (char_eqb 46%N 10%N) with false. cbv iota.
  rewrite startswith_app. rewrite skipn_app_ge by (simpl; lia).
  change (3 - length (lit "co/")) with 0. rewrite skipn_O.
  rewrite take_while_app_stop by assumption.
  destruct tok as [|x tok]; [congruence|]. cbn [length]. apply f_equal. lia.
Qed.

Lemma take_while_split (f : char -> bool) (s : str) :
  s = Re.take_while f s ++ skipn (length (Re.take_while f s)) s.
Proof.
  induction s as [|c s IH]; simpl; [reflexivity|].
  destruct (f c); simpl; [now f_equal|reflexivity].
Qed.

Lemma take_while_all (f : char -> bool) (s : str) :
  forallb f (Re.take_while f s) = true.
Proof.
  induction s as [|c s IH]; simpl; [reflexivity|].
  destruct (f c) eqn:E; simpl; [now rewrite E|reflexivity].
Qed.

Lemma take_while_stop (f : char -> bool) (s : str) :
  match skipn (length (Re.take_while f s)) s with
  | [] => True
  | c :: _ => f c = false
  end.
Proof.
  induction s as [|c s IH]; simpl; [exact I|].
  destruct (f c) eqn:E; simpl; [exact IH|exact E].
Qed.

(** A link of the shortener with a part of its token: the match at its
    place takes the token as far as it goes. *)
Lemma short_link_prefix_is_match (s tok rest : str) (k : nat) :
  skipn k s = lit "https://t.co/" ++ tok ++ rest ->
  tok <> [] ->
  forallb alnum tok = true ->
  exists n, short_url_at s k n /\ 13 + length tok <= n.
Proof.
  intros Hs Hne Htok.
  pose proof (take_while_split alnum rest) as Hsplit.
  pose proof (take_while_all alnum rest) as Hall.
  pose proof (take_while_stop alnum rest) as Hstop.
  set (run := Re.take_while alnum rest) in *.
  set (rest' := skipn (length run) rest) in *.
  exists (13 + length (tok ++ run)). split.
  - apply (@short_link_is_match s (tok ++ run) rest' k).
    + rewrite Hs, Hsplit at 1. now rewrite <- app_assoc.
    + destruct tok; [congruence|discriminate].
    + rewrite forallb_app, Htok, Hall. reflexivity.
    + exact Hstop.
  - rewrite length_app. lia.
Qed.

(** C7, as the code has it.  The text handed on is the stripped and
    trimmed text between the matches of a scan from the left; each span
    of the scan is a match of the pattern; every match of the pattern in
    the text, the first and all later ones, is a span of the scan or
    starts inside a span that starts before it; a link [https://t.co/]
    with its token is such a match; and every substring that reads
    [https://t.co/] and letters or digits lies in the span that starts
    where it starts or starts inside a span that starts before it.  The
    example of the specification is sanitized to [Check this out]. *)
Theorem short_links_removed_by_scan (text : str) :
  sanitize text
  = trim (strip (Re.splice (fun _ => []) 0 (short_url_spans text) text))
  /\ (forall i m, In (i, m) (short_url_spans text) ->
        short_url_at text i m /\ 14 <= m)
  /\ (forall k n, short_url_at text k n ->
        exists i m, In (i, m) (short_url_spans text)
          /\ ((i = k /\ m = n) \/ (i < k /\ k < i + m)))
  /\ (forall k tok rest,
        skipn k text = lit "https://t.co/" ++ tok ++ rest ->
        tok <> [] ->
        forallb alnum tok = true ->
        match rest with [] => True | c :: _ => alnum c = false end ->
        short_url_at text k (13 + length tok))
  /\ (forall k tok rest,
        skipn k text = lit "https://t.co/" ++ tok ++ rest ->
        tok <> [] ->
        forallb alnum tok = true ->
        exists i m, In (i, m) (short_url_spans text)
          /\ ((i = k /\ 13 + length tok <= m) \/ (i < k /\ k < i + m)))
  /\ sanitize (lit "Check this out https://t.co/abc123") = lit "Check this out".
Proof.
  assert (Hcover : forall k n, short_url_at text k n ->
            exists i m, In (i, m) (short_url_spans text)
              /\ ((i = k /\ m = n) \/ (i < k /\ k < i + m))).
  { intros k n Hm. pose proof (short_url_match_pos _ Hm) as Hn.
    destruct n as [|n]; [lia|].
    destruct (@finditer_from_covers (Re.match_here SHORT_URL_PATTERN)
                (@match_here_nil SHORT_URL_PATTERN) text 0 0 k n
                (Nat.le_0_l k) Hm) as (i & m & Hin & H).
    exists i, m. split; [exact Hin|]. simpl in H. exact H. }
  split; [|split; [|split; [|split; [|split]]]].
  - unfold sanitize, stripped, strip_short_urls, short_url_spans.
    now rewrite sub_splice.
  - intros i m Hin. unfold short_url_spans, Re.finditer in Hin.
    apply finditer_from_sound in Hin as (_ & Hm & _).
    rewrite Nat.sub_0_r in Hm. split; [exact Hm|].
    now apply short_url_match_pos in Hm.
  - exact Hcover.
  - intros k tok rest. apply short_link_is_match.
  - intros k tok rest Hs Hne Htok.
    destruct (short_link_prefix_is_match _ _ _ Hs Hne Htok) as (n & Hm & Hn).
    destruct (Hcover k n Hm) as (i & m & Hin & [[-> ->]|H]).
    + exists k, n. split; [exact Hin|]. left. now split.
    + exists i, m. split; [exact Hin|]. now right.
  - vm_compute. reflexivity.
Qed.

(** C7, as stated, fails: a link that starts inside the token of the
    link before it is a match of the pattern, lies in no span of the
    scan, and its tail is published. *)
Lemma short_link_inside_token_survives :
  short_url_at (lit "https://t.co/abhttps://t.co/x") 15 14
  /\ short_url_spans (lit "https://t.co/abhttps://t.co/x") = [(0, 20)]
  /\ sanitize (lit "https://t.co/abhttps://t.co/x") = lit "://t.co/x".
Proof. vm_compute. repeat split. Qed.

Example sanitize_two_links :
  sanitize (lit "one https://t.co/Ab1 two https://t.co/Cd2")
  = lit "one  two".
Proof. vm_compute. reflexivity. Qed.

(** The dot of the pattern stands for any character. *)
Example sanitize_any_host_char :
  sanitize (lit "see https://tXco/abc") = lit "see".
Proof. vm_compute. reflexivity. Qed.

(** ** Trimming *)

Lemma lstrip_length (s : str) : length (lstrip s) <= length s.
Proof.
  induction s as [|c s IH]; simpl; [lia|].
  destruct (isspace c); simpl; lia.
Qed.

Lemma rstrip_length (s : str) : length (rstrip s) <= length s.
Proof.
  unfold rstrip. rewrite length_rev.
  etransitivity; [apply lstrip_length|]. now rewrite length_rev.
Qed.

(** [rstrip] keeps the whole string exactly when its last character is
    not white space. *)
Lemma rstrip_length_last (s : str) (c : char) :
  length (rstrip (s ++ [c])) = length (s ++ [c]) <-> isspace c = false.
Proof.
  unfold rstrip. rewrite rev_app_distr. simpl rev. cbn [app lstrip].
  rewrite !length_rev.
  destruct (isspace c).
  - pose proof (lstrip_length (rev s)) as H. rewrite length_rev in H.
    rewrite length_app. simpl. split; [lia|discriminate].
  - cbn [length]. rewrite length_rev, length_app. simpl. split; [reflexivity|lia].
Qed.

Lemma firstn_snoc (s : str) (n : nat) :
  n < length s -> firstn (S n) s = firstn n s ++ [nth n s 0%N].
Proof.
  revert n; induction s as [|c s IH]; intros n H; simpl in H; [lia|].
  destruct n as [|n]; [reflexivity|].
  cbn [firstn nth app]. f_equal. apply IH. lia.
Qed.

(** C1, as the code has it.  The sanitized text has at most 300
    characters; when the text stripped of short links has at most 300,
    it is returned as it is; when it has more, the result is its first
    297 characters, right-trimmed of white space, followed by [...], so
    it ends in [...], and it has exactly 300 characters if and only if
    the 297th character is not white space. *)
Theorem sanitize_truncation (T : str) :
  length (sanitize T) <= 300
  /\ (length (stripped T) <= 300 -> sanitize T = stripped T)
  /\ (300 < length (stripped T) ->
        sanitize T = rstrip (firstn 297 (stripped T)) ++ lit "..."
        /\ (exists p, sanitize T = p ++ lit "...")
        /\ (length (sanitize T) = 300
            <-> isspace (nth 296 (stripped T) 0%N) = false)).
Proof.
  unfold sanitize, trim, BLUESKY_LIMIT.
  change (300 - 3) with 297.
  destruct (300 <? length (stripped T)) eqn:E.
  - apply Nat.ltb_lt in E.
    assert (Hlen : length (rstrip (firstn 297 (stripped T))) <= 297).
    { etransitivity; [apply rstrip_length|]. apply firstn_le_length. }
    split; [|split].
    + rewrite length_app. change (length (lit "...")) with 3. lia.
    + lia.
    + intros _. split; [reflexivity|]. split; [eexists; reflexivity|].
      rewrite length_app. change (length (lit "...")) with 3.
      change 297 with (S 296) at 1. rewrite firstn_snoc by lia.
      pose proof (rstrip_length_last (firstn 296 (stripped T))
                    (nth 296 (stripped T) 0%N)) as Hl.
      rewrite (length_app (firstn 296 (stripped T))), length_firstn in Hl.
      cbn [length] in Hl. rewrite Nat.min_l in Hl by lia.
      split; intros H; [apply Hl; lia|apply Hl in H; lia].
  - apply Nat.ltb_ge in E. split; [exact E|]. split; [reflexivity|lia].
Qed.

(** C1, as stated, fails: a text of 301 characters whose 297th character
    is a space is cut to 299 characters. *)
Lemma sanitize_truncation_shorter :
  length (stripped (repeat 97%N 296 ++ lit " bbbb")) = 301
  /\ length (sanitize (repeat 97%N 296 ++ lit " bbbb")) = 299.
Proof. vm_compute. split; reflexivity. Qed.

(** ** [get_metadata] and [fetch_image_to_memory] *)

Lemma get_metadata_not_200 (w : world) (url : str) (r : response) :
  session_get w url 10 = Ok r ->
  status r <> 200%Z ->
  get_metadata w url = ([Called (SessionGet url 10) None], Ok None).
Proof.
  intros Hg Hs. unfold get_metadata, do_call, bind. rewrite Hg.
  apply Z.eqb_neq in Hs. rewrite Hs. reflexivity.
Qed.

Lemma get_metadata_200 (w : world) (url : str) (r : response) :
  session_get w url 10 = Ok r ->
  status r = 200%Z ->
  get_metadata w url
  = match content_read r (1024 * 10) with
    | Ok chunk =>
        match fromstring w chunk with
        | Ok t => ([Called (SessionGet url 10) None], Ok (Some (extract t)))
        | Raise (Exception m) =>
            ([Called (SessionGet url 10) None;
              Print (lit "Metadata extraction warning for " ++ url ++ lit ": " ++ m)],
             Ok None)
        | Raise (BaseException m) =>
            ([Called (SessionGet url 10) None], Raise (BaseException m))
        end
    | Raise (Exception m) =>
        ([Called (SessionGet url 10) None;
          Print (lit "Metadata extraction warning for " ++ url ++ lit ": " ++ m)],
         Ok None)
    | Raise (BaseException m) =>
        ([Called (SessionGet url 10) None], Raise (BaseException m))
    end.
Proof.
  intros Hg Hs. unfold get_metadata, do_call, bind, lift. rewrite Hg.
  apply Z.eqb_eq in Hs. rewrite Hs. cbn [negb].
  destruct (content_read r (1024 * 10)) as [chunk|[m|m]]; try reflexivity.
  destruct (fromstring w chunk) as [t|[m|m]]; reflexivity.
Qed.

Lemma get_metadata_get_raises (w : world) (url : str) (e : exn) :
  session_get w url 10 = Raise e ->
  get_metadata w url
  = match e with
    | Exception m =>
        ([Called (SessionGet url 10) (Some e);
          Print (lit "Metadata extraction warning for " ++ url ++ lit ": " ++ m)],
         Ok None)
    | BaseException _ => ([Called (SessionGet url 10) (Some e)], Raise e)
    end.
Proof.
  intros Hg. unfold get_metadata, do_call, bind. rewrite Hg.
  destruct e; reflexivity.
Qed.

(** The shapes [get_metadata] can take. *)
Lemma get_metadata_cases (w : world) (url : str) :
  exists t, Forall (fun ev => is_send ev = false) t
    /\ (get_metadata w url = (t, Ok None)
        \/ (exists r chunk tr,
              session_get w url 10 = Ok r /\ status r = 200%Z
              /\ content_read r (1024 * 10) = Ok chunk
              /\ fromstring w chunk = Ok tr
              /\ get_metadata w url = (t, Ok (Some (extract tr))))
        \/ (exists m,
              get_metadata w url = (t, Raise (BaseException m))
              /\ (session_get w url 10 = Raise (BaseException m)
                  \/ exists r,
                       session_get w url 10 = Ok r
                       /\ (content_read r (1024 * 10) = Raise (BaseException m)
                           \/ exists chunk,
                                content_read r (1024 * 10) = Ok chunk
                                /\ fromstring w chunk = Raise (BaseException m))))).
Proof.
  destruct (session_get w url 10) as [r|e] eqn:Hg.
  - destruct (Z.eq_dec (status r) 200) as [Hs|Hs].
    + rewrite (get_metadata_200 _ _ Hg Hs).
      destruct (content_read r (1024 * 10)) as [chunk|[m|m]] eqn:Hc.
      * destruct (fromstring w chunk) as [tr|[m|m]] eqn:Hf.
        -- eexists. split; [|right; left; exists r, chunk, tr; repeat split; eauto].
           repeat constructor.
        -- eexists. split; [|left; reflexivity]. repeat constructor.
        -- eexists. split; [|right; right; exists m; split; [reflexivity|]].
           ++ repeat constructor.
           ++ right. exists r. split; [reflexivity|]. right. exists chunk. now split.
      * eexists. split; [|left; reflexivity]. repeat constructor.
      * eexists. split; [|right; right; exists m; split; [reflexivity|]].
        -- repeat constructor.
        -- right. exists r. split; [reflexivity|]. now left.
    + rewrite (get_metadata_not_200 _ _ Hg Hs).
      eexists. split; [|left; reflexivity]. repeat constructor.
  - rewrite (get_metadata_get_raises _ _ Hg). destruct e as [m|m].
    + eexists. split; [|left; reflexivity]. repeat constructor.
    + eexists. split; [|right; right; exists m; split; [reflexivity|now left]].
      repeat constructor.
Qed.

(** No error leaves [get_metadata]. *)
Lemma get_metadata_no_exception (w : world) (url : str) (m : str) :
  outcome (get_metadata w url) <> Raise (Exception m).
Proof.
  destruct (get_metadata_cases w url) as (t & _ & [H|[H|H]]).
  - rewrite H. discriminate.
  - destruct H as (r & chunk & tr & _ & _ & _ & _ & H). rewrite H. discriminate.
  - destruct H as (m' & H & _). rewrite H. discriminate.
Qed.

(** C6, as the code has it.  [get_metadata] on a response of status 200
    whose prefix parses returns the document title with fallback
    [No title], the first of the [og:description] and [name=description]
    contents with fallback [No description], and the [og:image] content
    with fallback none; any status other than 200, inside the 2xx class
    or outside it, gives no metadata; an error of the request, of the
    read or of the parser gives no metadata; and no error leaves the
    function. *)
Theorem get_metadata_extraction_and_absence (w : world) (url : str) :
  (forall r chunk t,
      session_get w url 10 = Ok r -> status r = 200%Z ->
      content_read r (1024 * 10) = Ok chunk -> fromstring w chunk = Ok t ->
      outcome (get_metadata w url)
      = Ok (Some {|
          title := match findtext_title t with
                   | Some (c :: s) => c :: s
                   | _ => lit "No title"
                   end;
          description := match xpath_og_description t with
                         | d :: _ => d
                         | [] => match xpath_name_description t with
                                 | d :: _ => d
                                 | [] => lit "No description"
                                 end
                         end;
          thumbnail := match xpath_og_image t with
                       | i :: _ => Some i
                       | [] => None
                       end |}))
  /\ (forall r,
        session_get w url 10 = Ok r -> status r <> 200%Z ->
        outcome (get_metadata w url) = Ok None)
  /\ (forall m,
        session_get w url 10 = Raise (Exception m) ->
        outcome (get_metadata w url) = Ok None)
  /\ (forall r m,
        session_get w url 10 = Ok r -> status r = 200%Z ->
        content_read r (1024 * 10) = Raise (Exception m) ->
        outcome (get_metadata w url) = Ok None)
  /\ (forall r chunk m,
        session_get w url 10 = Ok r -> status r = 200%Z ->
        content_read r (1024 * 10) = Ok chunk ->
        fromstring w chunk = Raise (Exception m) ->
        outcome (get_metadata w url) = Ok None)
  /\ (forall m, outcome (get_metadata w url) <> Raise (Exception m)).
Proof.
  split; [|split; [|split; [|split; [|split]]]].
  - intros r chunk t Hg Hs Hc Hf.
    rewrite (get_metadata_200 _ _ Hg Hs), Hc, Hf. unfold outcome, extract. simpl.
    do 2 f_equal. destruct t as [ti od nd oi]; simpl. f_equal.
    + destruct od as [|d od]; [|reflexivity]. now destruct nd.
    + now destruct oi.
  - intros r Hg Hs. rewrite (get_metadata_not_200 _ _ Hg Hs). reflexivity.
  - intros m Hg. now rewrite (get_metadata_get_raises _ _ Hg).
  - intros r m Hg Hs Hc. now rewrite (get_metadata_200 _ _ Hg Hs), Hc.
  - intros r chunk m Hg Hs Hc Hf. now rewrite (get_metadata_200 _ _ Hg Hs), Hc, Hf.
  - intros m. apply get_metadata_no_exception.
Qed.

(** C6, as stated, fails: a page answered with status 201, of the 2xx
    class, whose prefix parses to a document with a title, gives no
    metadata. *)
Lemma get_metadata_status_201_is_absent :
  session_get world_status_201 (lit "https://example.com/a") 10
  = Ok created_response
  /\ (200 <= status created_response < 300)%Z
  /\ content_read created_response (1024 * 10) = Ok []
  /\ fromstring world_status_201 [] = Ok page
  /\ findtext_title page = Some (lit "Ex")
  /\ outcome (get_metadata world_status_201 (lit "https://example.com/a"))
     = Ok None.
Proof.
  split; [reflexivity|]. split; [simpl; lia|]. split; [reflexivity|].
  split; [reflexivity|]. split; [reflexivity|]. vm_compute. reflexivity.
Qed.

Lemma fetch_image_cases (w : world) (url : str) :
  exists t, Forall (fun ev => is_send ev = false) t
    /\ (fetch_image_to_memory w url = (t, Ok None)
        \/ (exists r data,
              session_get w url 15 = Ok r /\ status r = 200%Z
              /\ read r = Ok data
              /\ fetch_image_to_memory w url = (t, Ok (Some data)))
        \/ (exists m, fetch_image_to_memory w url = (t, Raise (BaseException m)))).
Proof.
  unfold fetch_image_to_memory, do_call, bind, lift.
  destruct (session_get w url 15) as [r|[m|m]] eqn:Hg.
  - destruct (status r =? 200)%Z eqn:Hs.
    + apply Z.eqb_eq in Hs. destruct (read r) as [data|[m|m]] eqn:Hr.
      * eexists. split; [|right; left; exists r, data; repeat split; eauto].
        repeat constructor.
      * eexists. split; [|left; reflexivity]. repeat constructor.
      * eexists. split; [|right; right; exists m; reflexivity]. repeat constructor.
    + eexists. split; [|left; reflexivity]. repeat constructor.
  - eexists. split; [|left; reflexivity]. repeat constructor.
  - eexists. split; [|right; right; exists m; reflexivity]. repeat constructor.
Qed.

Lemma sends_app (t1 t2 : list event) : sends (t1 ++ t2) = sends t1 + sends t2.
Proof. unfold sends. now rewrite filter_app, length_app. Qed.

Lemma successful_sends_app (t1 t2 : list event) :
  successful_sends (t1 ++ t2) = successful_sends t1 + successful_sends t2.
Proof. unfold successful_sends. now rewrite filter_app, length_app. Qed.

Lemma polls_app (t1 t2 : list event) : polls (t1 ++ t2) = polls t1 + polls t2.
Proof. unfold polls. now rewrite filter_app, length_app. Qed.

Lemma successful_sends_le (t : list event) : successful_sends t <= sends t.
Proof.
  unfold successful_sends, sends. induction t as [|ev t IH]; simpl; [lia|].
  destruct ev as [c r| |]; [destruct c, r|..]; simpl; lia.
Qed.

Lemma no_send_sends (t : list event) :
  Forall (fun ev => is_send ev = false) t -> sends t = 0.
Proof.
  unfold sends. induction 1 as [|ev t H _ IH]; simpl; [reflexivity|].
  now rewrite H.
Qed.

Lemma no_send_not_in (t : list event) (text : str) (e : option embed)
    (raised : option exn) :
  sends t = 0 -> ~ In (Called (SendPost text e) raised) t.
Proof.
  unfold sends. induction t as [|ev t IH]; simpl; intros H Hin; [exact Hin|].
  destruct Hin as [Heq|Hin].
  - subst ev. simpl in H. discriminate.
  - destruct (is_send ev); [discriminate|]. now apply IH.
Qed.

Lemma get_metadata_no_send (w : world) (url : str) :
  sends (trace (get_metadata w url)) = 0.
Proof.
  destruct (get_metadata_cases w url) as (t & Ht & [H|[H|H]]).
  - rewrite H. now apply no_send_sends.
  - destruct H as (r & chunk & tr & _ & _ & _ & _ & H). rewrite H.
    now apply no_send_sends.
  - destruct H as (m & H & _). rewrite H. now apply no_send_sends.
Qed.

Lemma get_metadata_no_polls (w : world) (url : str) :
  polls (trace (get_metadata w url)) = 0.
Proof.
  unfold get_metadata, do_call, bind, lift.
  destruct (session_get w url 10) as [r|[m|m]]; try reflexivity.
  destruct (negb (status r =? 200)%Z); [reflexivity|].
  destruct (content_read r (1024 * 10)) as [chunk|[m|m]]; try reflexivity.
  destruct (fromstring w chunk) as [t|[m|m]]; reflexivity.
Qed.

Lemma fetch_image_no_send (w : world) (url : str) :
  sends (trace (fetch_image_to_memory w url)) = 0.
Proof.
  destruct (fetch_image_cases w url) as (t & Ht & [H|[H|H]]).
  - rewrite H. now apply no_send_sends.
  - destruct H as (r & data & _ & _ & _ & H). rewrite H. now apply no_send_sends.
  - destruct H as (m & H). rewrite H. now apply no_send_sends.
Qed.

Lemma fetch_image_no_polls (w : world) (url : str) :
  polls (trace (fetch_image_to_memory w url)) = 0.
Proof.
  unfold fetch_image_to_memory, do_call, bind, lift.
  destruct (session_get w url 15) as [r|[m|m]]; try reflexivity.
  destruct (status r =? 200)%Z; [|reflexivity].
  destruct (read r) as [data|[m|m]]; reflexivity.
Qed.

Lemma fetch_image_no_exception (w : world) (url : str) (m : str) :
  outcome (fetch_image_to_memory w url) <> Raise (Exception m).
Proof.
  destruct (fetch_image_cases w url) as (t & Ht & [H|[H|H]]).
  - rewrite H. discriminate.
  - destruct H as (r & data & _ & _ & _ & H). rewrite H. discriminate.
  - destruct H as (m' & H). rewrite H. discriminate.
Qed.

(** ** The embed *)

Lemma embed_absent_not_ready (w : world) (fu : option str)
    (url : str) (md : metadata) (th : str) (data : bytes) :
  embed_absent w fu -> embed_ready w fu url md th data -> False.
Proof.
  intros Ha (Hfu & Hne & Hm & Hth & Hthne & Hi).
  destruct Ha as [Ht|(url' & Hfu' & _ & Ha)].
  - subst fu. destruct url; [congruence|discriminate].
  - assert (url' = url) by congruence. subst url'.
    destruct Ha as [Hn|(md' & Hm' & Ha)]; [congruence|].
    assert (md' = md) by congruence. subst md'.
    destruct Ha as [Ht|(th' & Hth' & _ & Hi')].
    + rewrite Hth in Ht. destruct th; [congruence|discriminate].
    + assert (th' = th) by congruence. subst th'. congruence.
Qed.

(** What [embed_of] does, by cases: no embed because one of the three
    conditions is absent; an embed because all three hold and the upload
    returned; the exception of the upload, raised when all three hold;
    or an interruption of one of the two fetches. *)
Lemma embed_of_cases (w : world) (fu : option str) :
  exists t, sends t = 0 /\ polls t = 0
    /\ ((embed_of w fu = (t, Ok None) /\ embed_absent w fu)
        \/ (exists url md th data blob,
              embed_ready w fu url md th data
              /\ upload_blob w data = Ok blob
              /\ embed_of w fu
                 = (t, Ok (Some {| embed_title := title md;
                                   embed_description := description md;
                                   embed_uri := url;
                                   embed_thumb := blob |})))
        \/ (exists url md th data e t0,
              embed_ready w fu url md th data
              /\ upload_blob w data = Raise e
              /\ t = t0 ++ [Called (UploadBlob data) (Some e)]
              /\ embed_of w fu = (t, Raise e))
        \/ (exists m,
              embed_of w fu = (t, Raise (BaseException m))
              /\ ((exists url,
                     outcome (get_metadata w url) = Raise (BaseException m))
                  \/ (exists th,
                        outcome (fetch_image_to_memory w th)
                        = Raise (BaseException m)))
              /\ forall url md th data, ~ embed_ready w fu url md th data)).
Proof.
  destruct fu as [[|c u]|].
  - exists []. repeat split. left. split; [reflexivity|now left].
  - pose proof (get_metadata_no_send w (c :: u)) as Sg.
    pose proof (get_metadata_no_polls w (c :: u)) as Pg.
    pose proof (get_metadata_no_exception w (c :: u)) as Xg.
    unfold embed_of, bind.
    destruct (get_metadata w (c :: u)) as [t1 r1] eqn:G.
    unfold trace, outcome in Sg, Pg, Xg. cbn [fst snd] in Sg, Pg, Xg.
    destruct r1 as [[md|]|[m|m]].
    + destruct (thumbnail md) as [[|c' th]|] eqn:Th.
      * exists (t1 ++ []). rewrite sends_app, polls_app, Sg, Pg.
        repeat split. left. split; [reflexivity|]. right.
        exists (c :: u). repeat split; try discriminate.
        right. exists md. unfold outcome. rewrite G. split; [reflexivity|].
        left. now rewrite Th.
      * pose proof (fetch_image_no_send w (c' :: th)) as Sf.
        pose proof (fetch_image_no_polls w (c' :: th)) as Pf.
        pose proof (fetch_image_no_exception w (c' :: th)) as Xf.
        destruct (fetch_image_to_memory w (c' :: th)) as [t2 r2] eqn:F.
        unfold trace, outcome in Sf, Pf, Xf. cbn [fst snd] in Sf, Pf, Xf.
        assert (Hready : forall data, r2 = Ok (Some data) ->
                  embed_ready w (Some (c :: u)) (c :: u) md (c' :: th) data).
        { intros data ->. unfold embed_ready, outcome. rewrite G, F.
          repeat split; try discriminate. exact Th. }
        destruct r2 as [[data|]|[m|m]].
        -- unfold do_call. destruct (upload_blob w data) as [blob|e] eqn:U.
           ++ eexists. split; [|split; [|right; left;
                exists (c :: u), md, (c' :: th), data, blob;
                split; [now apply Hready|split; [exact U|reflexivity]]]].
              ** rewrite !sends_app, Sg, Sf. reflexivity.
              ** rewrite !polls_app, Pg, Pf. reflexivity.
           ++ eexists. split; [|split; [|right; right; left;
                exists (c :: u), md, (c' :: th), data, e, (t1 ++ t2);
                split; [now apply Hready|split; [exact U|split; [|reflexivity]]]]].
              ** rewrite !sends_app, Sg, Sf. reflexivity.
              ** rewrite !polls_app, Pg, Pf. reflexivity.
              ** cbn [raised_of]. now rewrite <- app_assoc.
        -- exists (t1 ++ t2 ++ []). rewrite !sends_app, !polls_app, Sg, Sf, Pg, Pf.
           repeat split. left. split; [reflexivity|]. right.
           exists (c :: u). repeat split; try discriminate.
           right. exists md. unfold outcome. rewrite G. split; [reflexivity|].
           right. exists (c' :: th). rewrite F. repeat split; try discriminate.
           exact Th.
        -- now destruct (Xf m).
        -- exists (t1 ++ t2). rewrite !sends_app, !polls_app, Sg, Sf, Pg, Pf.
           repeat split. right; right; right. exists m. split; [reflexivity|].
           split; [right; exists (c' :: th); unfold outcome; now rewrite F|].
           intros url md' th' data (Hfu & _ & Hm & Hth & _ & Hi).
           injection Hfu as <-. unfold outcome in Hm, Hi. rewrite G in Hm.
           cbn [snd] in Hm. injection Hm as <-. rewrite Th in Hth.
           injection Hth as <-. rewrite F in Hi. discriminate.
      * exists (t1 ++ []). rewrite sends_app, polls_app, Sg, Pg.
        repeat split. left. split; [reflexivity|]. right.
        exists (c :: u). repeat split; try discriminate.
        right. exists md. unfold outcome. rewrite G. split; [reflexivity|].
        left. now rewrite Th.
    + exists (t1 ++ []). rewrite sends_app, polls_app, Sg, Pg.
      repeat split. left. split; [reflexivity|]. right.
      exists (c :: u). repeat split; try discriminate.
      left. unfold outcome. now rewrite G.
    + now destruct (Xg m).
    + exists t1. repeat split; try assumption. right; right; right.
      exists m. split; [reflexivity|].
      split; [left; exists (c :: u); unfold outcome; now rewrite G|].
      intros url md th data (Hfu & _ & Hm & _).
      injection Hfu as <-. unfold outcome in Hm. rewrite G in Hm. discriminate.
  - exists []. repeat split. left. split; [reflexivity|now left].
Qed.

(** ** One iteration of the loop *)

Lemma cycle_no_tweets (w : world) (a : account) (uid : str) (prev : option str) :
  get_user_tweets w uid 1 = Ok [] ->
  cycle w a uid prev = ([Called (GetUserTweets uid 1) None; Sleep 60], Ok prev).
Proof.
  intros H. unfold cycle, try_block, do_call, bind. rewrite H. reflexivity.
Qed.

Lemma cycle_same (w : world) (a : account) (uid : str) (prev : option str)
    (tw : tweet) (rest : list tweet) :
  get_user_tweets w uid 1 = Ok (tw :: rest) ->
  same_id prev (id tw) = true ->
  cycle w a uid prev = ([Called (GetUserTweets uid 1) None; Sleep 60], Ok prev).
Proof.
  intros H Hs. unfold cycle, try_block, do_call, bind. rewrite H, Hs. reflexivity.
Qed.

Lemma cycle_poll_raises (w : world) (a : account) (uid : str) (prev : option str)
    (e : exn) :
  get_user_tweets w uid 1 = Raise e ->
  cycle w a uid prev
  = match e with
    | Exception m =>
        ([Called (GetUserTweets uid 1) (Some e);
          Print (tag a ++ lit "Critical Loop Error: " ++ m);
          Sleep 60], Ok prev)
    | BaseException _ => ([Called (GetUserTweets uid 1) (Some e)], Raise e)
    end.
Proof.
  intros H. unfold cycle, try_block, do_call, bind. rewrite H.
  destruct e; reflexivity.
Qed.

Lemma cycle_new (w : world) (a : account) (uid : str) (prev : option str)
    (tw : tweet) (rest : list tweet) :
  get_user_tweets w uid 1 = Ok (tw :: rest) ->
  same_id prev (id tw) = false ->
  cycle w a uid prev
  = match embed_of w (fix_utm_source (full_url_of tw)) with
    | (te, Ok e) =>
        let post := SendPost (sanitize (text tw)) e in
        match send_post w (sanitize (text tw)) e with
        | Ok _ =>
            (new_tweet_events a uid tw ++ te ++ trim_events a tw
               ++ [Called post None;
                   Print (tag a ++ lit "Posted to Bluesky successfully.");
                   Sleep 60],
             Ok (Some (id tw)))
        | Raise (Exception m) =>
            (new_tweet_events a uid tw ++ te ++ trim_events a tw
               ++ [Called post (Some (Exception m));
                   Print (tag a ++ lit "Bluesky post error: " ++ m);
                   Sleep 60],
             Ok prev)
        | Raise (BaseException m) =>
            (new_tweet_events a uid tw ++ te ++ trim_events a tw
               ++ [Called post (Some (BaseException m))],
             Raise (BaseException m))
        end
    | (te, Raise (Exception m)) =>
        (new_tweet_events a uid tw ++ te
           ++ [Print (tag a ++ lit "Critical Loop Error: " ++ m); Sleep 60],
         Ok prev)
    | (te, Raise (BaseException m)) =>
        (new_tweet_events a uid tw ++ te, Raise (BaseException m))
    end.
Proof.
  intros H Hs. unfold cycle, try_block, do_call, bind, print, sleep, ret.
  rewrite H, Hs.
  destruct (embed_of w (fix_utm_source (full_url_of tw))) as [te [e|[m|m]]].
  - unfold sanitize, trim, trim_events, try_except.
    destruct (BLUESKY_LIMIT <? length (stripped (text tw))) eqn:E.
    + destruct (send_post w _ e) as [[]|[m|m]];
        cbn [fst snd app raised_of]; rewrite <- ?app_assoc; reflexivity.
    + destruct (send_post w _ e) as [[]|[m|m]];
        cbn [fst snd app raised_of]; rewrite <- ?app_assoc; reflexivity.
  - cbn [fst snd app try_except]. rewrite <- ?app_assoc. reflexivity.
  - cbn [fst snd app try_except]. reflexivity.
Qed.

Lemma new_tweet_events_counts (a : account) (uid : str) (tw : tweet) :
  sends (new_tweet_events a uid tw) = 0 /\ polls (new_tweet_events a uid tw) = 1.
Proof. split; reflexivity. Qed.

Lemma trim_events_counts (a : account) (tw : tweet) :
  sends (trim_events a tw) = 0 /\ polls (trim_events a tw) = 0.
Proof. unfold trim_events. destruct (_ <? _); split; reflexivity. Qed.

Lemma same_id_refl (x : str) : same_id (Some x) x = true.
Proof. simpl. now apply str_eqb_eq. Qed.

Lemma same_id_true (prev : option str) (x : str) :
  same_id prev x = true -> prev = Some x.
Proof.
  destruct prev as [p|]; simpl; [|discriminate].
  intros H. apply str_eqb_eq in H. now subst.
Qed.

Ltac regroup :=
  repeat match goal with
         | |- cycle_kind _ _ _ _ (?x ++ ?y ++ ?z) _ => rewrite (app_assoc x y z)
         end.

Lemma cycle_classified (w : world) (a : account) (uid : str) (prev : option str) :
  cycle_kind w a uid prev (trace (cycle w a uid prev)) (outcome (cycle w a uid prev)).
Proof.
  unfold trace, outcome.
  destruct (get_user_tweets w uid 1) as [[|tw rest]|e] eqn:G.
  - rewrite (cycle_no_tweets w a uid prev G). apply Idle. left. exact G.
  - destruct (same_id prev (id tw)) eqn:Hs.
    + rewrite (cycle_same w a uid prev G Hs). apply Idle. right.
      exists tw, rest. split; [exact G|now apply same_id_true].
    + rewrite (cycle_new w a uid prev G Hs).
      assert (Hl : latest w uid = Some tw) by (unfold latest; now rewrite G).
      destruct (new_tweet_events_counts a uid tw) as [Sn Pn].
      destruct (trim_events_counts a tw) as [St Pt].
      destruct (embed_of_cases w (fix_utm_source (full_url_of tw)))
        as (te & Se & Pe & [[He _]|[H|[H|H]]]).
      * rewrite He. cbv zeta.
        destruct (send_post w (sanitize (text tw)) None) as [[]|[m|m]] eqn:P;
          cbn [fst snd]; regroup.
        -- apply Published; try assumption.
           ++ rewrite !sends_app, Sn, Se, St. reflexivity.
           ++ rewrite !polls_app, Pn, Pe, Pt. reflexivity.
           ++ unfold outcome. now rewrite He.
        -- apply PublishFailed; try assumption.
           ++ rewrite !sends_app, Sn, Se, St. reflexivity.
           ++ rewrite !polls_app, Pn, Pe, Pt. reflexivity.
           ++ unfold outcome. now rewrite He.
        -- apply PublishInterrupted; try assumption.
           ++ rewrite !sends_app, Sn, Se, St. reflexivity.
           ++ rewrite !polls_app, Pn, Pe, Pt. reflexivity.
           ++ unfold outcome. now rewrite He.
      * destruct H as (url & md & th & data & blob & _ & _ & He).
        rewrite He. cbv zeta.
        match goal with |- context [send_post w ?x ?y] =>
          destruct (send_post w x y) as [[]|[m|m]] eqn:P end;
          cbn [fst snd]; regroup.
        -- apply Published; try assumption.
           ++ rewrite !sends_app, Sn, Se, St. reflexivity.
           ++ rewrite !polls_app, Pn, Pe, Pt. reflexivity.
           ++ unfold outcome. now rewrite He.
        -- apply PublishFailed; try assumption.
           ++ rewrite !sends_app, Sn, Se, St. reflexivity.
           ++ rewrite !polls_app, Pn, Pe, Pt. reflexivity.
           ++ unfold outcome. now rewrite He.
        -- apply PublishInterrupted; try assumption.
           ++ rewrite !sends_app, Sn, Se, St. reflexivity.
           ++ rewrite !polls_app, Pn, Pe, Pt. reflexivity.
           ++ unfold outcome. now rewrite He.
      * destruct H as (url & md & th & data & e & t0 & _ & _ & _ & He).
        rewrite He. destruct e as [m|m]; cbn [fst snd]; regroup.
        -- apply Skipped.
           ++ rewrite !sends_app, Sn, Se. reflexivity.
           ++ rewrite !polls_app, Pn, Pe. reflexivity.
        -- apply Interrupted; [rewrite sends_app, Sn, Se; lia|].
           rewrite polls_app, Pn, Pe. reflexivity.
      * destruct H as (m & He & _). rewrite He. cbn [fst snd].
        apply Interrupted; [rewrite sends_app, Sn, Se; lia|].
        rewrite polls_app, Pn, Pe. reflexivity.
  - rewrite (cycle_poll_raises w a uid prev G). destruct e as [m|m]; cbn [fst snd].
    + apply (Skipped w a uid prev [Called (GetUserTweets uid 1) (Some (Exception m))] m);
        reflexivity.
    + apply Interrupted; reflexivity.
Qed.

Lemma send_in_tail (t l : list event) (txt : str) (e : option embed)
    (r : option exn) :
  sends t = 0 ->
  In (Called (SendPost txt e) r) (t ++ l) ->
  In (Called (SendPost txt e) r) l.
Proof.
  intros Ht Hin. apply in_app_or in Hin as [Hin|Hin]; [|exact Hin].
  now destruct (no_send_not_in _ txt e r Ht).
Qed.

(** A publish call in the trace of an iteration is its one publish call,
    made for the post just fetched. *)
Lemma cycle_send_inv (w : world) (a : account) (uid : str) (prev : option str)
    (txt : str) (e : option embed) (r : option exn) :
  In (Called (SendPost txt e) r) (trace (cycle w a uid prev)) ->
  exists tw t l,
    latest w uid = Some tw /\ same_id prev (id tw) = false
    /\ txt = sanitize (text tw)
    /\ outcome (embed_of w (fix_utm_source (full_url_of tw))) = Ok e
    /\ r = raised_of (send_post w txt e)
    /\ sends t = 0 /\ sends l = 0
    /\ trace (cycle w a uid prev) = t ++ Called (SendPost txt e) r :: l
    /\ outcome (cycle w a uid prev)
       = match send_post w txt e with
         | Ok _ => Ok (Some (id tw))
         | Raise (Exception _) => Ok prev
         | Raise (BaseException m) => Raise (BaseException m)
         end
    /\ l = match send_post w txt e with
           | Ok _ => [Print (tag a ++ lit "Posted to Bluesky successfully.");
                      Sleep 60]
           | Raise (Exception m) =>
               [Print (tag a ++ lit "Bluesky post error: " ++ m); Sleep 60]
           | Raise (BaseException _) => []
           end.
Proof.
  intros Hin. pose proof (cycle_classified w a uid prev) as K.
  remember (trace (cycle w a uid prev)) as tr eqn:Etr.
  remember (outcome (cycle w a uid prev)) as oc eqn:Eoc.
  destruct K as [H|t m St Pt|t m St Pt|t tw e' m Hl Hs St Pt He Hp
                 |t tw e' Hl Hs St Pt He Hp|t tw e' m Hl Hs St Pt He Hp].
  - simpl in Hin. destruct Hin as [Hin|[Hin|[]]]; discriminate.
  - apply send_in_tail in Hin; [|exact St].
    simpl in Hin. destruct Hin as [Hin|[Hin|[]]]; discriminate.
  - now destruct (no_send_not_in _ txt e r St).
  - apply send_in_tail in Hin; [|exact St].
    destruct Hin as [Hin|[]]. injection Hin as <- <- <-.
    exists tw, t, []. rewrite Hp. repeat split; assumption || reflexivity.
  - apply send_in_tail in Hin; [|exact St].
    destruct Hin as [Hin|[Hin|[Hin|[]]]]; try discriminate.
    injection Hin as <- <- <-.
    exists tw, t, [Print (tag a ++ lit "Posted to Bluesky successfully."); Sleep 60].
    rewrite Hp. repeat split; assumption || reflexivity.
  - apply send_in_tail in Hin; [|exact St].
    destruct Hin as [Hin|[Hin|[Hin|[]]]]; try discriminate.
    injection Hin as <- <- <-.
    exists tw, t, [Print (tag a ++ lit "Bluesky post error: " ++ m); Sleep 60].
    rewrite Hp. repeat split; assumption || reflexivity.
Qed.

(** ** State of the relay *)

(** C4.  [previous_tweet_id] is the only state an iteration hands on.
    It leaves an iteration changed only as the identifier of the post
    just fetched, after the publish call for that post has returned;
    when the publish call raises an error the state is unchanged, the
    call is not made again in that iteration, which ends with the log
    line and the 60 second sleep, and the loop goes on with the next
    poll. *)
Theorem state_update_only_after_publish
    (w : world) (a : account) (uid : str) (prev : option str) :
  (forall st, outcome (cycle w a uid prev) = Ok st -> st <> prev ->
     exists tw e t,
       latest w uid = Some tw /\ st = Some (id tw)
       /\ send_post w (sanitize (text tw)) e = Ok tt
       /\ sends t = 0
       /\ trace (cycle w a uid prev)
          = t ++ [Called (SendPost (sanitize (text tw)) e) None;
                  Print (tag a ++ lit "Posted to Bluesky successfully.");
                  Sleep 60])
  /\ (forall txt e m,
        In (Called (SendPost txt e) (Some (Exception m)))
           (trace (cycle w a uid prev)) ->
        outcome (cycle w a uid prev) = Ok prev
        /\ sends (trace (cycle w a uid prev)) = 1
        /\ exists t,
             trace (cycle w a uid prev)
             = t ++ [Called (SendPost txt e) (Some (Exception m));
                     Print (tag a ++ lit "Bluesky post error: " ++ m);
                     Sleep 60])
  /\ (forall ws txt e m,
        In (Called (SendPost txt e) (Some (Exception m)))
           (trace (cycle w a uid prev)) ->
        loop (w :: ws) a uid prev
        = (trace (cycle w a uid prev) ++ trace (loop ws a uid prev),
           outcome (loop ws a uid prev))).
Proof.
  assert (Hfail : forall txt e m,
    In (Called (SendPost txt e) (Some (Exception m)))
       (trace (cycle w a uid prev)) ->
    outcome (cycle w a uid prev) = Ok prev
    /\ sends (trace (cycle w a uid prev)) = 1
    /\ exists t,
         trace (cycle w a uid prev)
         = t ++ [Called (SendPost txt e) (Some (Exception m));
                 Print (tag a ++ lit "Bluesky post error: " ++ m);
                 Sleep 60]).
  { intros txt e m Hin.
    destruct (cycle_send_inv _ _ _ _ _ _ _ Hin)
      as (tw & t & l & _ & _ & _ & _ & Hr & St & Sl & Ht & Ho & Hl).
    destruct (send_post w txt e) as [u|[m'|m']]; try discriminate.
    injection Hr as <-. subst l. split; [exact Ho|]. split.
    - rewrite Ht, sends_app, St. reflexivity.
    - exists t. exact Ht. }
  split; [|split; [exact Hfail|]].
  - intros st Ho Hne. pose proof (cycle_classified w a uid prev) as K.
    remember (trace (cycle w a uid prev)) as tr eqn:Etr.
    rewrite Ho in K.
    remember (Ok st) as oc eqn:Eoc.
    destruct K as [H|t m St Pt|t m St Pt|t tw e' m Hl Hs St Pt He Hp
                   |t tw e' Hl Hs St Pt He Hp|t tw e' m Hl Hs St Pt He Hp];
      try congruence.
    injection Eoc as <-. exists tw, e', t. repeat split; assumption.
  - intros ws txt e m Hin. destruct (Hfail _ _ _ Hin) as (Ho & _).
    unfold outcome in Ho. cbn [loop]. unfold bind, trace, outcome.
    destruct (cycle w a uid prev) as [tc rc]. cbn [fst snd] in *. subst rc.
    now destruct (loop ws a uid prev).
Qed.

(** ** Errors *)

Lemma get_metadata_errors_only (w : world) (url : str) (m : str) :
  world_errors_only w ->
  outcome (get_metadata w url) <> Raise (BaseException m).
Proof.
  intros W Ho. destruct (get_metadata_cases w url) as (t & _ & [H|[H|H]]).
  - rewrite H in Ho. discriminate.
  - destruct H as (r & chunk & tr & _ & _ & _ & _ & H). rewrite H in Ho.
    discriminate.
  - destruct H as (m' & H & Hsrc). rewrite H in Ho. injection Ho as ->.
    destruct Hsrc as [Hg|(r & Hg & [Hc|(chunk & Hc & Hf)])].
    + exact (weo_get W _ _ Hg).
    + exact (weo_content_read W _ _ _ Hg Hc).
    + exact (weo_fromstring W _ Hf).
Qed.

Lemma fetch_image_errors_only (w : world) (url : str) (m : str) :
  world_errors_only w ->
  outcome (fetch_image_to_memory w url) <> Raise (BaseException m).
Proof.
  intros W. unfold fetch_image_to_memory, do_call, bind, lift, outcome.
  destruct (session_get w url 15) as [r|[m'|m']] eqn:Hg; try discriminate.
  - destruct (status r =? 200)%Z; [|discriminate].
    destruct (read r) as [data|[m'|m']] eqn:Hr; try discriminate.
    cbn [snd try_except]. intros H. injection H as ->.
    exact (weo_read W _ _ Hg Hr).
  - cbn [snd try_except raised_of]. intros H. injection H as ->.
    exact (weo_get W _ _ Hg).
Qed.

Lemma embed_of_errors_only (w : world) (fu : option str) (m : str) :
  world_errors_only w ->
  outcome (embed_of w fu) <> Raise (BaseException m).
Proof.
  intros W Ho. destruct (embed_of_cases w fu) as (t & _ & _ & [[H _]|[H|[H|H]]]).
  - rewrite H in Ho. discriminate.
  - destruct H as (url & md & th & data & blob & _ & _ & H).
    rewrite H in Ho. discriminate.
  - destruct H as (url & md & th & data & e & t0 & _ & Hu & _ & H).
    rewrite H in Ho. injection Ho as ->. exact (weo_upload W _ Hu).
  - destruct H as (m' & H & [(url & Hg)|(th & Hf)] & _);
      rewrite H in Ho; injection Ho as ->.
    + exact (get_metadata_errors_only url W Hg).
    + exact (fetch_image_errors_only th W Hf).
Qed.

Lemma cycle_no_exception (w : world) (a : account) (uid : str)
    (prev : option str) (m : str) :
  outcome (cycle w a uid prev) <> Raise (Exception m).
Proof.
  pose proof (cycle_classified w a uid prev) as K.
  remember (trace (cycle w a uid prev)) as tr eqn:Etr.
  remember (outcome (cycle w a uid prev)) as oc eqn:Eoc.
  destruct K; discriminate.
Qed.

Lemma cycle_polls_once (w : world) (a : account) (uid : str) (prev : option str) :
  polls (trace (cycle w a uid prev)) = 1.
Proof.
  pose proof (cycle_classified w a uid prev) as K.
  remember (trace (cycle w a uid prev)) as tr eqn:Etr.
  remember (outcome (cycle w a uid prev)) as oc eqn:Eoc.
  destruct K; rewrite ?polls_app; try reflexivity;
    match goal with H : polls _ = 1 |- _ => rewrite H end; reflexivity.
Qed.

Lemma cycle_errors_only (w : world) (a : account) (uid : str)
    (prev : option str) :
  world_errors_only w -> exists st, outcome (cycle w a uid prev) = Ok st.
Proof.
  intros W. unfold outcome.
  destruct (get_user_tweets w uid 1) as [[|tw rest]|[m|m]] eqn:G.
  - rewrite (cycle_no_tweets w a uid prev G). now eexists.
  - destruct (same_id prev (id tw)) eqn:Hs.
    + rewrite (cycle_same w a uid prev G Hs). now eexists.
    + rewrite (cycle_new w a uid prev G Hs).
      pose proof (fun m => @embed_of_errors_only w
                    (fix_utm_source (full_url_of tw)) m W) as He.
      unfold outcome in He.
      destruct (embed_of w (fix_utm_source (full_url_of tw))) as [te [e|[m|m]]].
      * cbv zeta.
        destruct (send_post w (sanitize (text tw)) e) as [u|[m|m]] eqn:P;
          try (now eexists).
        now destruct (weo_send W _ _ P).
      * now eexists.
      * now destruct (He m).
  - rewrite (cycle_poll_raises w a uid prev G). now eexists.
  - now destruct (weo_tweets W _ _ G).
Qed.

(** C8.  An error raised in the [try] block of an iteration is caught by
    the handler of the loop: the iteration ends with the log line and
    the sleep, the state unchanged.  No error leaves an iteration or the
    loop; when the world raises errors only, every iteration of the loop
    is run. *)
Theorem errors_contained_at_cycle_boundary (a : account) (uid : str) :
  (forall w prev m,
      outcome (try_block w a uid prev) = Raise (Exception m) ->
      cycle w a uid prev
      = (trace (try_block w a uid prev)
           ++ [Print (tag a ++ lit "Critical Loop Error: " ++ m); Sleep 60],
         Ok prev))
  /\ (forall w prev m, outcome (cycle w a uid prev) <> Raise (Exception m))
  /\ (forall ws prev m, outcome (loop ws a uid prev) <> Raise (Exception m))
  /\ (forall ws prev,
        Forall world_errors_only ws ->
        (exists st, outcome (loop ws a uid prev) = Ok st)
        /\ polls (trace (loop ws a uid prev)) = length ws).
Proof.
  split; [|split; [|split]].
  - intros w prev m H. unfold cycle, try_except, bind, trace, outcome in *.
    destruct (try_block w a uid prev) as [t [x|[m'|m']]]; try discriminate.
    cbn [snd] in H. injection H as ->. cbn [fst snd print sleep ret app].
    now rewrite <- app_assoc.
  - intros w prev m. apply cycle_no_exception.
  - intros ws. induction ws as [|w ws IH]; intros prev m; [discriminate|].
    cbn [loop]. unfold bind, outcome.
    pose proof (@cycle_no_exception w a uid prev) as Hc. unfold outcome in Hc.
    destruct (cycle w a uid prev) as [tc [st|e]].
    + specialize (IH st m). unfold outcome in IH.
      now destruct (loop ws a uid st).
    + cbn [snd] in *. intros H. injection H as ->. now apply (Hc m).
  - intros ws. induction ws as [|w ws IH]; intros prev HW.
    + split; [now eexists|reflexivity].
    + inversion HW as [|w' ws' W HW']; subst.
      destruct (cycle_errors_only a uid prev W) as (st & Hst).
      pose proof (cycle_polls_once w a uid prev) as Hp.
      destruct (IH st HW') as ((st' & Hst') & Hpolls).
      cbn [loop]. unfold bind, outcome, trace in *.
      destruct (cycle w a uid prev) as [tc rc]. cbn [fst snd] in *. subst rc.
      destruct (loop ws a uid st) as [tl rl]. cbn [fst snd] in *.
      split; [now exists st'|]. rewrite polls_app, Hp, Hpolls. reflexivity.
Qed.

(** ** Deduplication *)

(** An iteration on the post already relayed polls, sleeps and does
    nothing else. *)
Lemma cycle_dedup_noop (w : world) (a : account) (uid : str) (tw : tweet) :
  latest w uid = Some tw ->
  cycle w a uid (Some (id tw))
  = ([Called (GetUserTweets uid 1) None; Sleep 60], Ok (Some (id tw))).
Proof.
  unfold latest. intros H.
  destruct (get_user_tweets w uid 1) as [[|tw' rest]|e] eqn:G; try discriminate.
  injection H as ->.
  apply (cycle_same w a uid (Some (id tw)) G). apply same_id_refl.
Qed.

(** One iteration when no post other than [X] is fetched. *)
Lemma cycle_fixed_post (w : world) (a : account) (uid : str)
    (prev : option str) (X : str) :
  (forall tw, latest w uid = Some tw -> id tw = X) ->
  sends (trace (cycle w a uid prev)) <= 1
  /\ (prev = Some X -> sends (trace (cycle w a uid prev)) = 0)
  /\ (forall st, outcome (cycle w a uid prev) = Ok st ->
        st = prev
        \/ (st = Some X /\ successful_sends (trace (cycle w a uid prev)) = 1))
  /\ (successful_sends (trace (cycle w a uid prev)) = 0
      \/ outcome (cycle w a uid prev) = Ok (Some X))
  /\ (forall t1 t2 txt e,
        trace (cycle w a uid prev) = t1 ++ Called (SendPost txt e) None :: t2 ->
        sends t2 = 0 /\ outcome (cycle w a uid prev) = Ok (Some X)).
Proof.
  intros HX.
  assert (Hsucc0 : forall t, sends t = 0 -> successful_sends t = 0).
  { intros t Ht. pose proof (successful_sends_le t). lia. }
  assert (Hdecomp : forall t1 t2 txt e,
    trace (cycle w a uid prev) = t1 ++ Called (SendPost txt e) None :: t2 ->
    sends t2 = 0 /\ outcome (cycle w a uid prev) = Ok (Some X)).
  { intros t1 t2 txt e Ht.
    assert (Hin : In (Called (SendPost txt e) None) (trace (cycle w a uid prev))).
    { rewrite Ht. apply in_or_app. right. now left. }
    destruct (cycle_send_inv _ _ _ _ _ _ _ Hin)
      as (tw & t & l & Hl & _ & _ & _ & Hr & St & Sl & Ht' & Ho & _).
    rewrite Ho. destruct (send_post w txt e) as [u|[m|m]]; try discriminate.
    rewrite (HX _ Hl). split; [|reflexivity].
    assert (Hs : sends (trace (cycle w a uid prev)) = 1).
    { rewrite Ht', sends_app, St. unfold sends at 1. simpl.
      fold (sends l). now rewrite Sl. }
    rewrite Ht, sends_app in Hs. unfold sends at 2 in Hs. simpl in Hs.
    fold (sends t2) in Hs. lia. }
  pose proof (cycle_classified w a uid prev) as K.
  remember (trace (cycle w a uid prev)) as tr eqn:Etr.
  remember (outcome (cycle w a uid prev)) as oc eqn:Eoc.
  destruct K as [H|t m St Pt|t m St Pt|t tw e' m Hl Hs St Pt He Hp
                 |t tw e' Hl Hs St Pt He Hp|t tw e' m Hl Hs St Pt He Hp].
  - split; [|split; [|split; [|split; [|exact Hdecomp]]]].
    + unfold sends. simpl. lia.
    + reflexivity.
    + intros st H'. injection H' as <-. now left.
    + now left.
  - split; [|split; [|split; [|split; [|exact Hdecomp]]]].
    + rewrite sends_app, St. unfold sends. simpl. lia.
    + intros _. rewrite sends_app, St. reflexivity.
    + intros st H'. injection H' as <-. now left.
    + left. apply Hsucc0. rewrite sends_app, St. reflexivity.
  - split; [|split; [|split; [|split; [|exact Hdecomp]]]].
    + lia.
    + intros _. exact St.
    + discriminate.
    + left. now apply Hsucc0.
  - rewrite (HX _ Hl) in *.
    split; [|split; [|split; [|split; [|exact Hdecomp]]]].
    + rewrite sends_app, St. unfold sends. simpl. lia.
    + intros ->. rewrite same_id_refl in Hs. discriminate.
    + discriminate.
    + left. rewrite successful_sends_app, (Hsucc0 _ St). reflexivity.
  - rewrite (HX _ Hl) in *.
    split; [|split; [|split; [|split; [|exact Hdecomp]]]].
    + rewrite sends_app, St. unfold sends. simpl. lia.
    + intros ->. rewrite same_id_refl in Hs. discriminate.
    + intros st H'. injection H' as <-. right. split; [reflexivity|].
      rewrite successful_sends_app, (Hsucc0 _ St). reflexivity.
    + now right.
  - rewrite (HX _ Hl) in *.
    split; [|split; [|split; [|split; [|exact Hdecomp]]]].
    + rewrite sends_app, St. unfold sends. simpl. lia.
    + intros ->. rewrite same_id_refl in Hs. discriminate.
    + intros st H'. injection H' as <-. now left.
    + left. rewrite successful_sends_app, (Hsucc0 _ St). reflexivity.
Qed.

Lemma sends_cons_send (txt : str) (e : option embed) (r : option exn)
    (t : list event) :
  sends (Called (SendPost txt e) r :: t) = S (sends t).
Proof. reflexivity. Qed.

(** The loop when no post other than [X] is fetched. *)
Lemma loop_fixed_post (ws : list world) (a : account) (uid : str) (X : str) :
  (forall w tw, In w ws -> latest w uid = Some tw -> id tw = X) ->
  forall prev,
    successful_sends (trace (loop ws a uid prev)) <= 1
    /\ (prev = Some X -> sends (trace (loop ws a uid prev)) = 0)
    /\ (forall t1 t2 txt e,
          trace (loop ws a uid prev) = t1 ++ Called (SendPost txt e) None :: t2 ->
          sends t2 = 0).
Proof.
  induction ws as [|w ws IH]; intros HX prev.
  - split; [unfold successful_sends; simpl; lia|]. split; [reflexivity|].
    intros t1 t2 txt e H. simpl in H. now destruct t1.
  - assert (HXw : forall tw, latest w uid = Some tw -> id tw = X).
    { intros tw. apply HX. now left. }
    assert (HXws : forall w' tw, In w' ws -> latest w' uid = Some tw -> id tw = X).
    { intros w' tw Hin. apply HX. now right. }
    specialize (IH HXws).
    destruct (@cycle_fixed_post w a uid prev X HXw) as (Hle & Hprev & Hst & Hsucc & Hdec).
    pose proof (successful_sends_le (trace (cycle w a uid prev))) as Hsl.
    cbn [loop]. unfold bind, trace, outcome in *.
    destruct (cycle w a uid prev) as [tc [st|ex]]; cbn [fst snd] in *.
    + destruct (IH st) as (IH1 & IH2 & IH3).
      destruct (loop ws a uid st) as [tl rl]. cbn [fst snd] in *.
      split; [|split].
      * rewrite successful_sends_app.
        destruct (Hst st eq_refl) as [->|[-> H1]].
        -- destruct Hsucc as [H0|H1]; [lia|].
           injection H1 as ->. specialize (IH2 eq_refl).
           pose proof (successful_sends_le tl). lia.
        -- specialize (IH2 eq_refl). pose proof (successful_sends_le tl). lia.
      * intros ->. rewrite sends_app, (Hprev eq_refl).
        destruct (Hst st eq_refl) as [->|[-> H1]]; now rewrite (IH2 eq_refl).
      * intros t1 t2 txt e H.
        apply app_eq_app in H as (l & [[Htc Ht2]|[Ht1 Htl]]).
        -- destruct l as [|ev l].
           ++ simpl in Ht2. apply (IH3 [] t2 txt e). now rewrite <- Ht2.
           ++ simpl in Ht2. injection Ht2 as <- ->.
              destruct (Hdec _ _ _ _ Htc) as (Hl & Ho). injection Ho as ->.
              now rewrite sends_app, Hl, (IH2 eq_refl).
        -- now apply (IH3 l t2 txt e).
    + split; [lia|]. split; [exact Hprev|].
      intros t1 t2 txt e H. now destruct (Hdec _ _ _ _ H).
Qed.

(** C3, as the code has it.  An iteration that fetches the post whose
    identifier is stored polls, sleeps and makes no publish call.  Over
    any number of iterations in which no other post is fetched, publish
    returns at most once, no publish call is made after one that
    returned, and none at all when the identifier is stored at the
    start. *)
Theorem dedup_publishes_at_most_once
    (ws : list world) (a : account) (uid : str) (prev : option str) (X : str) :
  (forall w tw, In w ws -> latest w uid = Some tw -> id tw = X) ->
  (forall w tw,
      latest w uid = Some tw ->
      cycle w a uid (Some (id tw))
      = ([Called (GetUserTweets uid 1) None; Sleep 60], Ok (Some (id tw))))
  /\ successful_sends (trace (loop ws a uid prev)) <= 1
  /\ (prev = Some X -> sends (trace (loop ws a uid prev)) = 0)
  /\ (forall t1 t2 txt e,
        trace (loop ws a uid prev) = t1 ++ Called (SendPost txt e) None :: t2 ->
        sends t2 = 0).
Proof.
  intros HX. split.
  - intros w tw. apply cycle_dedup_noop.
  - now apply loop_fixed_post.
Qed.

(** ** The embed of a published post *)

Lemma embed_of_no_send (w : world) (fu : option str) :
  sends (trace (embed_of w fu)) = 0.
Proof.
  destruct (embed_of_cases w fu) as (t & St & _ & [[H _]|[H|[H|H]]]).
  - now rewrite H.
  - destruct H as (url & md & th & data & blob & _ & _ & H). now rewrite H.
  - destruct H as (url & md & th & data & e & t0 & _ & _ & _ & H). now rewrite H.
  - destruct H as (m & H & _). now rewrite H.
Qed.

Lemma embed_ready_unique (w : world) (fu : option str)
    (url url' : str) (md md' : metadata) (th th' : str) (data data' : bytes) :
  embed_ready w fu url md th data ->
  embed_ready w fu url' md' th' data' ->
  url' = url /\ md' = md /\ th' = th /\ data' = data.
Proof.
  intros (Hfu & _ & Hm & Hth & _ & Hi) (Hfu' & _ & Hm' & Hth' & _ & Hi').
  assert (url' = url) by congruence. subst url'.
  assert (md' = md) by congruence. subst md'.
  assert (th' = th) by congruence. subst th'.
  assert (data' = data) by congruence. now subst data'.
Qed.

Lemma embed_of_absent (w : world) (fu : option str) :
  embed_absent w fu -> outcome (embed_of w fu) = Ok None.
Proof.
  intros Ha. destruct (embed_of_cases w fu) as (t & _ & _ & [[H _]|[H|[H|H]]]).
  - now rewrite H.
  - destruct H as (url & md & th & data & blob & Hr & _).
    now destruct (embed_absent_not_ready Ha Hr).
  - destruct H as (url & md & th & data & e & t0 & Hr & _).
    now destruct (embed_absent_not_ready Ha Hr).
  - exfalso. destruct H as (m & H & _ & _).
    destruct Ha as [Ht|(url & -> & Hne & Ha)].
    + destruct fu as [[|c u]|]; try discriminate; simpl in H; discriminate.
    + destruct url as [|c u]; [congruence|].
      unfold embed_of, bind, outcome in *.
      destruct (get_metadata w (c :: u)) as [t1 r1]. cbn [snd] in Ha.
      destruct Ha as [->|(md & -> & Ha)]; [discriminate|].
      destruct Ha as [Ht|(th & Hth & Hne' & Hf)].
      * destruct (thumbnail md) as [[|c' th]|]; discriminate.
      * rewrite Hth in H. destruct th as [|c' th]; [congruence|].
        destruct (fetch_image_to_memory w (c' :: th)) as [t2 r2].
        cbn [snd] in Hf. subst r2. discriminate.
Qed.

Lemma embed_of_ready (w : world) (fu : option str)
    (url : str) (md : metadata) (th : str) (data : bytes) :
  embed_ready w fu url md th data ->
  exists t0, sends t0 = 0
    /\ embed_of w fu
       = match upload_blob w data with
         | Ok blob =>
             (t0 ++ [Called (UploadBlob data) None],
              Ok (Some {| embed_title := title md;
                          embed_description := description md;
                          embed_uri := url;
                          embed_thumb := blob |}))
         | Raise e => (t0 ++ [Called (UploadBlob data) (Some e)], Raise e)
         end.
Proof.
  intros (Hfu & Hne & Hm & Hth & Hne' & Hi). subst fu.
  destruct url as [|c u]; [congruence|]. destruct th as [|c' th]; [congruence|].
  pose proof (get_metadata_no_send w (c :: u)) as Sg.
  pose proof (fetch_image_no_send w (c' :: th)) as Sf.
  unfold embed_of, bind, do_call, outcome, trace in *.
  destruct (get_metadata w (c :: u)) as [t1 r1]. cbn [fst snd] in *. subst r1.
  rewrite Hth.
  destruct (fetch_image_to_memory w (c' :: th)) as [t2 r2].
  cbn [fst snd] in *. subst r2.
  exists (t1 ++ t2). split; [now rewrite sends_app, Sg, Sf|].
  destruct (upload_blob w data) as [blob|e]; cbn [raised_of ret];
    now rewrite ?app_nil_r, <- ?app_assoc.
Qed.

(** C2.  Whenever an iteration calls publish, the text is the sanitized
    text of the post just fetched, and an embed is attached if and only
    if the metadata fetch gave metadata, the metadata held a thumbnail
    URL and the image fetch gave the image; the embed then carries the
    title and description of the metadata, the rewritten URL and the
    uploaded thumbnail.  When one of the three is absent, publish is
    called with the sanitized text and no embed.  When the three are
    there and the upload has returned, publish is called with the
    sanitized text and that embed. *)
Theorem embed_presence (w : world) (a : account) (uid : str) (prev : option str) :
  (forall txt e r,
      In (Called (SendPost txt e) r) (trace (cycle w a uid prev)) ->
      exists tw,
        latest w uid = Some tw /\ txt = sanitize (text tw)
        /\ (e <> None
            <-> exists url md th data,
                  embed_ready w (fix_utm_source (full_url_of tw)) url md th data)
        /\ (forall x, e = Some x ->
              exists url md th data blob,
                embed_ready w (fix_utm_source (full_url_of tw)) url md th data
                /\ upload_blob w data = Ok blob
                /\ x = {| embed_title := title md;
                          embed_description := description md;
                          embed_uri := url;
                          embed_thumb := blob |}))
  /\ (forall tw rest,
        get_user_tweets w uid 1 = Ok (tw :: rest) ->
        same_id prev (id tw) = false ->
        embed_absent w (fix_utm_source (full_url_of tw)) ->
        In (Called (SendPost (sanitize (text tw)) None)
              (raised_of (send_post w (sanitize (text tw)) None)))
           (trace (cycle w a uid prev)))
  /\ (forall tw rest url md th data blob,
        get_user_tweets w uid 1 = Ok (tw :: rest) ->
        same_id prev (id tw) = false ->
        embed_ready w (fix_utm_source (full_url_of tw)) url md th data ->
        upload_blob w data = Ok blob ->
        In (Called
              (SendPost (sanitize (text tw))
                 (Some {| embed_title := title md;
                          embed_description := description md;
                          embed_uri := url;
                          embed_thumb := blob |}))
              (raised_of
                 (send_post w (sanitize (text tw))
                    (Some {| embed_title := title md;
                             embed_description := description md;
                             embed_uri := url;
                             embed_thumb := blob |}))))
           (trace (cycle w a uid prev))).
Proof.
  split; [|split].
  - intros txt e r Hin.
    destruct (cycle_send_inv _ _ _ _ _ _ _ Hin)
      as (tw & t & l & Hl & _ & Ht & He & _).
    exists tw. split; [exact Hl|]. split; [exact Ht|].
    destruct (embed_of_cases w (fix_utm_source (full_url_of tw)))
      as (te & _ & _ & [[H Ha]|[H|[H|H]]]).
    + rewrite H in He. injection He as <-. split; [split|].
      * congruence.
      * intros (url & md & th & data & Hr).
        now destruct (embed_absent_not_ready Ha Hr).
      * discriminate.
    + destruct H as (url & md & th & data & blob & Hr & Hu & H).
      rewrite H in He. injection He as <-. split; [split|].
      * intros _. now exists url, md, th, data.
      * discriminate.
      * intros x Hx. injection Hx as <-. now exists url, md, th, data, blob.
    + destruct H as (url & md & th & data & e' & t0 & _ & _ & _ & H).
      rewrite H in He. discriminate.
    + destruct H as (m & H & _). rewrite H in He. discriminate.
  - intros tw rest G Hs Ha. unfold trace.
    rewrite (cycle_new w a uid prev G Hs).
    pose proof (embed_of_absent Ha) as He. unfold outcome in He.
    destruct (embed_of w (fix_utm_source (full_url_of tw))) as [te re].
    cbn [snd] in He. subst re. cbv zeta.
    destruct (send_post w (sanitize (text tw)) None) as [u|[m|m]];
      cbn [fst raised_of]; rewrite !in_app_iff; right; right; right; now left.
  - intros tw rest url md th data blob G Hs Hr Hu. unfold trace.
    rewrite (cycle_new w a uid prev G Hs).
    destruct (embed_of_ready Hr) as (t0 & _ & He). rewrite Hu in He.
    rewrite He. cbv zeta.
    match goal with |- context [send_post w ?x ?y] =>
      destruct (send_post w x y) as [u|[m|m]] end;
      cbn [fst raised_of]; rewrite !in_app_iff; right; right; right; now left.
Qed.

(** ** An upload that raises *)

(** C10.  When the three conditions of an embed hold and the upload of
    the thumbnail raises an error, the iteration makes no publish call,
    not even for the text alone, and leaves the state unchanged; the
    error is logged by the handler of the loop and the iteration ends
    with the sleep.  At the next poll the post is worked on again if it
    is the one fetched, and whatever is published is the post fetched
    then. *)
Theorem upload_error_skips_publish
    (w : world) (a : account) (uid : str) (prev : option str)
    (tw : tweet) (rest : list tweet)
    (url : str) (md : metadata) (th : str) (data : bytes) (m : str) :
  get_user_tweets w uid 1 = Ok (tw :: rest) ->
  same_id prev (id tw) = false ->
  embed_ready w (fix_utm_source (full_url_of tw)) url md th data ->
  upload_blob w data = Raise (Exception m) ->
  sends (trace (cycle w a uid prev)) = 0
  /\ outcome (cycle w a uid prev) = Ok prev
  /\ (exists t0,
        trace (cycle w a uid prev)
        = t0 ++ [Called (UploadBlob data) (Some (Exception m));
                 Print (tag a ++ lit "Critical Loop Error: " ++ m);
                 Sleep 60])
  /\ (forall w',
        (forall rest',
            get_user_tweets w' uid 1 = Ok (tw :: rest') ->
            exists t, trace (cycle w' a uid prev) = new_tweet_events a uid tw ++ t)
        /\ (forall txt e r,
              In (Called (SendPost txt e) r) (trace (cycle w' a uid prev)) ->
              exists tw', latest w' uid = Some tw' /\ txt = sanitize (text tw'))).
Proof.
  intros G Hs Hr Hu.
  destruct (embed_of_ready Hr) as (t0 & St0 & He). rewrite Hu in He.
  assert (Hc : cycle w a uid prev
               = (new_tweet_events a uid tw
                    ++ (t0 ++ [Called (UploadBlob data) (Some (Exception m))])
                    ++ [Print (tag a ++ lit "Critical Loop Error: " ++ m); Sleep 60],
                  Ok prev)).
  { rewrite (cycle_new w a uid prev G Hs), He. reflexivity. }
  split; [|split; [|split]].
  - rewrite Hc. unfold trace. cbn [fst]. rewrite !sends_app, St0. reflexivity.
  - now rewrite Hc.
  - exists (new_tweet_events a uid tw ++ t0). rewrite Hc. unfold trace. cbn [fst].
    rewrite <- !app_assoc. reflexivity.
  - intros w'. split.
    + intros rest' G'. unfold trace. rewrite (cycle_new w' a uid prev G' Hs).
      destruct (embed_of w' (fix_utm_source (full_url_of tw))) as [te [e|[m'|m']]];
        [cbv zeta; destruct (send_post w' (sanitize (text tw)) e) as [u|[m'|m']]|..];
        cbn [fst]; eexists; reflexivity.
    + intros txt e r Hin.
      destruct (cycle_send_inv _ _ _ _ _ _ _ Hin) as (tw' & _ & _ & Hl & _ & Ht & _).
      now exists tw'.
Qed.

(** ** Start of a relay and [main] *)

(** An error of the login is caught: the relay prints it and returns. *)
Lemma monitor_login_error (sw : startup_world) (ws : list world) (a : account)
    (m : str) :
  cookies_exist sw = false \/ load_cookies sw = Ok tt ->
  login sw (bluesky_user a) (bluesky_pass a) = Raise (Exception m) ->
  outcome (monitor_tweets sw ws a) = Ok Returned.
Proof.
  intros Hc Hl. unfold monitor_tweets, do_call, bind, outcome.
  destruct Hc as [Hc|Hc]; [rewrite Hc|rewrite Hc; destruct (cookies_exist sw)];
    cbn [print ret fst snd app]; rewrite Hl; reflexivity.
Qed.

(** An account that resolves to nothing makes the relay return. *)
Lemma monitor_user_missing (sw : startup_world) (ws : list world) (a : account) :
  cookies_exist sw = false \/ load_cookies sw = Ok tt ->
  login sw (bluesky_user a) (bluesky_pass a) = Ok tt ->
  get_user_by_screen_name sw (twitter_user a) = Ok None ->
  outcome (monitor_tweets sw ws a) = Ok Returned.
Proof.
  intros Hc Hl Hu. unfold monitor_tweets, do_call, bind, outcome.
  destruct Hc as [Hc|Hc]; [rewrite Hc|rewrite Hc; destruct (cookies_exist sw)];
    cbn [print ret fst snd app]; rewrite Hl; cbn [try_except]; rewrite Hu;
    reflexivity.
Qed.

(** The resolution of the account is called outside the [try] of the
    login: what it raises leaves [monitor_tweets]. *)
Lemma monitor_resolution_error (sw : startup_world) (ws : list world)
    (a : account) (e : exn) :
  cookies_exist sw = false \/ load_cookies sw = Ok tt ->
  login sw (bluesky_user a) (bluesky_pass a) = Ok tt ->
  get_user_by_screen_name sw (twitter_user a) = Raise e ->
  outcome (monitor_tweets sw ws a) = Raise e.
Proof.
  intros Hc Hl Hu. unfold monitor_tweets, do_call, bind, outcome.
  destruct Hc as [Hc|Hc]; [rewrite Hc|rewrite Hc; destruct (cookies_exist sw)];
    cbn [print ret fst snd app]; rewrite Hl; cbn [try_except]; rewrite Hu;
    reflexivity.
Qed.

(** A relay that returns leaves the other relays to themselves. *)
Lemma main_returned_relay (r : relay) (rs : list relay) :
  outcome (run_relay r) = Ok Returned ->
  main (r :: rs) = (fst (main rs), Finished :: snd (main rs)).
Proof.
  intros H. unfold main. cbn [map first_raise]. rewrite H.
  now destruct (first_raise (map (fun r0 => outcome (run_relay r0)) rs)).
Qed.

(** An exception that leaves one relay ends [main]; the relays in their
    loops are cancelled. *)
Lemma main_raised_relay (r : relay) (rs : list relay) (e : exn) :
  outcome (run_relay r) = Raise e ->
  fst (main (r :: rs)) = Raise e
  /\ forall r', In r' rs ->
       (exists st, outcome (run_relay r') = Ok (Looping st)) ->
       In Cancelled (snd (main (r :: rs))).
Proof.
  intros H. unfold main. cbn [map first_raise]. rewrite H. cbn [fst snd].
  split; [reflexivity|]. intros r' Hin (st & Hst). right.
  apply in_map_iff. exists (outcome (run_relay r')). rewrite Hst.
  split; [reflexivity|]. apply in_map_iff. now exists r'.
Qed.

(** C9 at a failing input.  The account of the first relay does not
    resolve: [get_user_by_screen_name] raises.  The exception leaves
    [monitor_tweets] and [main]; the second relay, which is in its loop
    and has published, is cancelled. *)
Lemma account_resolution_error_stops_every_relay :
  main [ {| relay_account := news;
            relay_startup := startup_resolution_error;
            relay_worlds := [world_ok] |};
         {| relay_account := weather;
            relay_startup := startup_ok;
            relay_worlds := [world_ok; world_ok] |} ]
  = (Raise (Exception (lit "The user does not exist.")),
     [Crashed (Exception (lit "The user does not exist.")); Cancelled]).
Proof. vm_compute. reflexivity. Qed.

(** A failed login of the first relay ends that relay alone. *)
Example login_error_stops_one_relay :
  main [ {| relay_account := news;
            relay_startup := startup_login_error;
            relay_worlds := [world_ok] |};
         {| relay_account := weather;
            relay_startup := startup_ok;
            relay_worlds := [world_ok; world_ok] |} ]
  = (Ok tt, [Finished; StillLooping]).
Proof. vm_compute. reflexivity. Qed.

(** ** Scenarios of the specification *)

Example scenario_link_with_thumbnail :
  cycle world_ok news (lit "42") None
  = ([Called (GetUserTweets (lit "42") 1) None;
      Print (lit "[news] New Tweet: Check this out https://t.co/abc123...");
      Called (SessionGet (lit "https://example.com/a?utm_source=bluesky") 10) None;
      Called (SessionGet (lit "http://img/x.png") 15) None;
      Called (UploadBlob []) None;
      Called (SendPost (lit "Check this out") (Some link_embed)) None;
      Print (lit "[news] Posted to Bluesky successfully.");
      Sleep 60],
     Ok (Some (lit "1001"))).
Proof. vm_compute. reflexivity. Qed.

Example scenario_long_text :
  cycle world_long news (lit "42") None
  = ([Called (GetUserTweets (lit "42") 1) None;
      Print (lit "[news] New Tweet: " ++ repeat 97%N 50 ++ lit "...");
      Print (lit "[news] Tweet too long for Bluesky (310 chars). Trimming.");
      Called (SendPost (repeat 97%N 297 ++ lit "...") None) None;
      Print (lit "[news] Posted to Bluesky successfully.");
      Sleep 60],
     Ok (Some (lit "1002"))).
Proof. vm_compute. reflexivity. Qed.

Example scenario_metadata_timeout :
  loop [world_metadata_timeout; world_ok] news (lit "42") None
  = ([Called (GetUserTweets (lit "42") 1) None;
      Print (lit "[news] New Tweet: Check this out https://t.co/abc123...");
      Called (SessionGet (lit "https://example.com/a?utm_source=bluesky") 10)
        (Some (Exception (lit "timeout")));
      Print (lit "Metadata extraction warning for https://example.com/a?utm_source=bluesky: timeout");
      Called (SendPost (lit "Check this out") None) None;
      Print (lit "[news] Posted to Bluesky successfully.");
      Sleep 60;
      Called (GetUserTweets (lit "42") 1) None;
      Sleep 60],
     Ok (Some (lit "1001"))).
Proof. vm_compute. reflexivity. Qed.

(** C3, as stated, fails: no new post arrives, the first publish call
    raises, and the next iteration calls publish again. *)
Lemma failed_publish_is_called_again :
  latest world_publish_error (lit "42") = Some link_tweet
  /\ latest world_ok (lit "42") = Some link_tweet
  /\ sends (trace (loop [world_publish_error; world_ok] news (lit "42") None)) = 2
  /\ successful_sends
       (trace (loop [world_publish_error; world_ok] news (lit "42") None)) = 1.
Proof. vm_compute. repeat split. Qed.

Lemma dedup_publishes_at_most_once_witness :
  (forall w tw,
      In w [world_publish_error; world_ok; world_ok] ->
      latest w (lit "42") = Some tw -> id tw = lit "1001")
  /\ successful_sends
       (trace (loop [world_publish_error; world_ok; world_ok] news (lit "42") None))
     <= 1.
Proof.
  assert (H : forall w tw,
             In w [world_publish_error; world_ok; world_ok] ->
             latest w (lit "42") = Some tw -> id tw = lit "1001").
  { intros w tw [<-|[<-|[<-|[]]]] Hl; vm_compute in Hl; injection Hl as <-;
      reflexivity. }
  split; [exact H|].
  apply (dedup_publishes_at_most_once
           [world_publish_error; world_ok; world_ok] news (lit "42") None H).
Defined.

Lemma upload_error_skips_publish_witness :
  get_user_tweets world_upload_error (lit "42") 1 = Ok [link_tweet]
  /\ same_id None (id link_tweet) = false
  /\ embed_ready world_upload_error (fix_utm_source (full_url_of link_tweet))
       (lit "https://example.com/a?utm_source=bluesky")
       (extract page) (lit "http://img/x.png") []
  /\ upload_blob world_upload_error [] = Raise (Exception (lit "upload failed"))
  /\ sends (trace (cycle world_upload_error news (lit "42") None)) = 0
  /\ outcome (cycle world_upload_error news (lit "42") None) = Ok None.
Proof.
  assert (Hr : embed_ready world_upload_error
                 (fix_utm_source (full_url_of link_tweet))
                 (lit "https://example.com/a?utm_source=bluesky")
                 (extract page) (lit "http://img/x.png") []).
  { unfold embed_ready. repeat split; try discriminate; vm_compute; reflexivity. }
  split; [reflexivity|]. split; [reflexivity|]. split; [exact Hr|].
  split; [reflexivity|].
  destruct (@upload_error_skips_publish world_upload_error news (lit "42") None
              link_tweet [] _ _ _ _ (lit "upload failed")
              eq_refl eq_refl Hr eq_refl) as (H1 & H2 & _).
  split; [exact H1|exact H2].
Defined.

Example scenario_publish_error :
  cycle world_publish_error news (lit "42") None
  = ([Called (GetUserTweets (lit "42") 1) None;
      Print (lit "[news] New Tweet: Check this out https://t.co/abc123...");
      Called (SessionGet (lit "https://example.com/a?utm_source=bluesky") 10) None;
      Called (SessionGet (lit "http://img/x.png") 15) None;
      Called (UploadBlob []) None;
      Called (SendPost (lit "Check this out") (Some link_embed))
        (Some (Exception (lit "rate limit")));
      Print (lit "[news] Bluesky post error: rate limit");
      Sleep 60],
     Ok None).
Proof. vm_compute. reflexivity. Qed.

Example scenario_upload_error :
  cycle world_upload_error news (lit "42") None
  = ([Called (GetUserTweets (lit "42") 1) None;
      Print (lit "[news] New Tweet: Check this out https://t.co/abc123...");
      Called (SessionGet (lit "https://example.com/a?utm_source=bluesky") 10) None;
      Called (SessionGet (lit "http://img/x.png") 15) None;
      Called (UploadBlob []) (Some (Exception (lit "upload failed")));
      Print (lit "[news] Critical Loop Error: upload failed");
      Sleep 60],
     Ok None).
Proof. vm_compute. reflexivity. Qed.

Example scenario_metadata :
  outcome (get_metadata world_ok (lit "https://example.com/a"))
  = Ok (Some {| title := lit "Ex";
                description := lit "D";
                thumbnail := Some (lit "http://img/x.png") |}).
Proof. vm_compute. reflexivity. Qed.

Example extract_fallbacks :
  extract {| findtext_title := None;
             xpath_og_description := [];
             xpath_name_description := [];
             xpath_og_image := [] |}
  = {| title := lit "No title";
       description := lit "No description";
       thumbnail := None |}.
Proof. vm_compute. reflexivity. Qed.

(** * Further properties of the code *)

(** ** The short-link pattern, in full *)

(** X1.  The matches of [SHORT_URL_PATTERN] at a position of a text are
    exactly the texts [https://t], one character other than a newline,
    [co/] and a non-empty run of ASCII letters and digits taken as far as
    it goes; the length of the match is 13 plus the length of the run.
    The character between [t] and [co/] is free: the dot of the source
    is not escaped. *)
Theorem short_url_at_iff (s : str) (k n : nat) :
  short_url_at s k n
  <-> exists c tok rest,
        skipn k s = lit "https://t" ++ c :: lit "co/" ++ tok ++ rest
        /\ c <> 10%N
        /\ tok <> []
        /\ forallb alnum tok = true
        /\ match rest with [] => True | x :: _ => alnum x = false end
        /\ n = 13 + length tok.
Proof.
  unfold short_url_at. rewrite short_url_match. split.
  - destruct (startswith (lit "https://t") (skipn k s)) eqn:E1; [|discriminate].
    apply startswith_split in E1. change (length (lit "https://t")) with 9 in E1.
    destruct (skipn 9 (skipn k s)) as [|c s1] eqn:E2; [discriminate|].
    destruct (char_eqb c 10%N) eqn:Ec; [discriminate|].
    destruct (startswith (lit "co/") s1) eqn:E3; [|discriminate].
    apply startswith_split in E3. change (length (lit "co/")) with 3 in E3.
    pose proof (take_while_split alnum (skipn 3 s1)) as Hsplit.
    pose proof (take_while_all alnum (skipn 3 s1)) as Hall.
    pose proof (take_while_stop alnum (skipn 3 s1)) as Hstop.
    destruct (length (Re.take_while alnum (skipn 3 s1))) as [|j] eqn:El;
      [discriminate|].
    intros H. injection H as <-.
    exists c, (Re.take_while alnum (skipn 3 s1)),
      (skipn (S j) (skipn 3 s1)).
    split; [|split; [|split; [|split; [|split]]]].
    + rewrite E1 at 1. f_equal. f_equal. rewrite E3 at 1. f_equal. exact Hsplit.
    + intros ->. discriminate.
    + intros H0. rewrite H0 in El. discriminate.
    + exact Hall.
    + exact Hstop.
    + rewrite El. lia.
  - intros (c & tok & rest & Hs & Hc & Hne & Htok & Hrest & ->). rewrite Hs.
    rewrite startswith_app.
    rewrite skipn_app_ge by (simpl; lia).
    change (9 - length (lit "https://t")) with 0. rewrite skipn_O.
    destruct (char_eqb c 10%N) eqn:Ec; [apply char_eqb_eq in Ec; congruence|].
    rewrite startswith_app. rewrite skipn_app_ge by (simpl; lia).
    change (3 - length (lit "co/")) with 0. rewrite skipn_O.
    rewrite take_while_app_stop by assumption.
    destruct tok as [|x tok]; [congruence|]. cbn [length]. apply f_equal. lia.
Qed.

(** A text that is not a link of the shortener and is removed all the
    same, and links that are left in place. *)
Example other_host_is_removed :
  sanitize (lit "menu at https://taco/Monday now") = lit "menu at  now".
Proof. vm_compute. reflexivity. Qed.

Example other_schemes_are_kept :
  sanitize (lit "a http://t.co/abc b HTTPS://T.CO/abc c https://t.co/")
  = lit "a http://t.co/abc b HTTPS://T.CO/abc c https://t.co/".
Proof. vm_compute. reflexivity. Qed.

(** ** Text without short links *)

Lemma short_url_needs_head (s : str) :
  startswith (lit "https://t") s = false ->
  forall n, Re.match_here SHORT_URL_PATTERN s <> Some (S n).
Proof. intros H n. rewrite short_url_match, H. discriminate. Qed.

(** X2.  A text in which [https://t] does not occur is handed on with
    nothing removed from its inside: it is only stripped of white space
    at both ends and trimmed to the limit. *)
Theorem text_without_short_link_is_kept (text : str) :
  (forall k, startswith (lit "https://t") (skipn k text) = false) ->
  strip_short_urls text = text /\ sanitize text = trim (strip text).
Proof.
  intros H.
  assert (Hid : strip_short_urls text = text).
  { unfold strip_short_urls. induction text as [|c s IH]; [reflexivity|].
    rewrite sub_cons_nomatch.
    - f_equal. apply IH. intros k. apply (H (S k)).
    - apply short_url_needs_head. apply (H 0). }
  split; [exact Hid|]. unfold sanitize, stripped. now rewrite Hid.
Qed.

Lemma text_without_short_link_is_kept_witness :
  (forall k, startswith (lit "https://t") (skipn k (lit "  see http://t.co/x  "))
             = false)
  /\ strip_short_urls (lit "  see http://t.co/x  ") = lit "  see http://t.co/x  "
  /\ sanitize (lit "  see http://t.co/x  ") = trim (strip (lit "  see http://t.co/x  ")).
Proof.
  assert (H : forall k,
             startswith (lit "https://t") (skipn k (lit "  see http://t.co/x  "))
             = false).
  { intros k. do 22 (destruct k as [|k]; [reflexivity|]).
    reflexivity. }
  split; [exact H|]. exact (text_without_short_link_is_kept _ H).
Defined.

(** ** White space and length of the sanitized text *)

Lemma lstrip_head (s : str) (c : char) (r : str) :
  lstrip s = c :: r -> isspace c = false.
Proof.
  induction s as [|x s IH]; simpl; [discriminate|].
  destruct (isspace x) eqn:E; [exact IH|].
  intros H. injection H as <- _. exact E.
Qed.

Lemma lstrip_nil_iff (s : str) : lstrip s = [] <-> forallb isspace s = true.
Proof.
  induction s as [|x s IH]; simpl; [tauto|].
  destruct (isspace x); simpl; [exact IH|]. split; discriminate.
Qed.

Lemma lstrip_snoc_nonspace (q : str) (x : char) :
  isspace x = false -> exists y, lstrip (q ++ [x]) = y ++ [x].
Proof.
  intros Hx. induction q as [|c q IH]; simpl.
  - rewrite Hx. now exists [].
  - destruct (isspace c); [exact IH|]. now exists (c :: q).
Qed.

Lemma rstrip_last (s p : str) (c : char) :
  rstrip s = p ++ [c] -> isspace c = false.
Proof.
  unfold rstrip. intros H. apply (f_equal (@rev char)) in H.
  rewrite rev_involutive, rev_app_distr in H. simpl in H.
  now apply lstrip_head in H.
Qed.

Lemma rstrip_cons_nonspace (x : char) (l : str) :
  isspace x = false -> exists r, rstrip (x :: l) = x :: r.
Proof.
  intros Hx. unfold rstrip. simpl rev.
  destruct (@lstrip_snoc_nonspace (rev l) x Hx) as (y & Hy). rewrite Hy.
  rewrite rev_app_distr. simpl. now exists (rev y).
Qed.

Lemma rstrip_nil : rstrip [] = [].
Proof. reflexivity. Qed.

Lemma strip_nil_iff (s : str) : strip s = [] <-> forallb isspace s = true.
Proof.
  unfold strip. rewrite <- lstrip_nil_iff. split.
  - intros H. destruct (lstrip s) as [|x l] eqn:E; [reflexivity|].
    pose proof (@lstrip_head s x l E) as Hx.
    destruct (@rstrip_cons_nonspace x l Hx) as (r & Hr). congruence.
  - intros ->. reflexivity.
Qed.

Lemma strip_head (s : str) (c : char) (r : str) :
  strip s = c :: r -> isspace c = false.
Proof.
  unfold strip. destruct (lstrip s) as [|x l] eqn:E; [discriminate|].
  pose proof (@lstrip_head s x l E) as Hx.
  destruct (@rstrip_cons_nonspace x l Hx) as (r' & Hr). rewrite Hr.
  intros H. injection H as <- _. exact Hx.
Qed.

Lemma strip_length (s : str) : length (strip s) <= length s.
Proof.
  unfold strip. etransitivity; [apply rstrip_length|apply lstrip_length].
Qed.

Lemma sub_from_delete_length (matcher : str -> option nat) (s : str) (k : nat) :
  length (Re.sub_from matcher (fun _ => []) k s) <= length s.
Proof.
  revert k. induction s as [|c s IH]; intros k; simpl; [lia|].
  destruct k as [|k].
  - destruct (matcher (c :: s)) as [[|n]|]; simpl.
    + specialize (IH 0). lia.
    + specialize (IH n). lia.
    + specialize (IH 0). lia.
  - specialize (IH k). lia.
Qed.

Lemma trim_length (s : str) : length (trim s) <= length s.
Proof.
  unfold trim, BLUESKY_LIMIT. change (300 - 3) with 297.
  destruct (300 <? length s) eqn:E; [|lia].
  apply Nat.ltb_lt in E. rewrite length_app. change (length (lit "...")) with 3.
  pose proof (rstrip_length (firstn 297 s)) as H.
  pose proof (firstn_le_length 297 s). lia.
Qed.

(** X3.  The text handed to the publish call is never longer than the
    text of the post, never begins and never ends with white space, and
    is empty exactly when nothing but white space is left of the post
    once its short links are removed. *)
Theorem sanitize_white_space (T : str) :
  length (sanitize T) <= length T
  /\ (forall c r, sanitize T = c :: r -> isspace c = false)
  /\ (forall p c, sanitize T = p ++ [c] -> isspace c = false)
  /\ (sanitize T = [] <-> forallb isspace (strip_short_urls T) = true).
Proof.
  split; [|split; [|split]].
  - unfold sanitize, stripped, strip_short_urls.
    etransitivity; [apply trim_length|].
    etransitivity; [apply strip_length|]. apply sub_from_delete_length.
  - intros c r. unfold sanitize, trim, BLUESKY_LIMIT. change (300 - 3) with 297.
    destruct (300 <? length (stripped T)) eqn:E.
    + apply Nat.ltb_lt in E. unfold stripped in *.
      destruct (strip (strip_short_urls T)) as [|x l] eqn:Es; [simpl in E; lia|].
      pose proof (@strip_head (strip_short_urls T) x l Es) as Hx.
      change (firstn 297 (x :: l)) with (x :: firstn 296 l).
      destruct (@rstrip_cons_nonspace x (firstn 296 l) Hx) as (r' & Hr). rewrite Hr.
      intros H. injection H as <- _. exact Hx.
    + apply strip_head.
  - intros p c. unfold sanitize, trim, BLUESKY_LIMIT. change (300 - 3) with 297.
    destruct (300 <? length (stripped T)) eqn:E.
    + change (lit "...") with ([46; 46]%N ++ [46%N]). rewrite app_assoc.
      intros H. apply app_inj_tail in H as [_ <-]. reflexivity.
    + apply rstrip_last.
  - unfold sanitize, trim, BLUESKY_LIMIT, stripped. rewrite <- strip_nil_iff.
    destruct (300 <? length (strip (strip_short_urls T))) eqn:E; [|tauto].
    apply Nat.ltb_lt in E. split.
    + intros H. apply (f_equal (@length char)) in H. rewrite length_app in H.
      simpl in H. lia.
    + intros H. rewrite H in E. simpl in E. lia.
Qed.

(** A post that is only a short link is published with an empty text. *)
Example sanitize_only_link :
  sanitize (lit " https://t.co/abc123 ") = [].
Proof. vm_compute. reflexivity. Qed.

(** ** The two fetches, event by event *)

Lemma filter_length_app (p : event -> bool) (t1 t2 : list event) :
  length (filter p (t1 ++ t2)) = length (filter p t1) + length (filter p t2).
Proof. now rewrite filter_app, length_app. Qed.

Lemma http_gets_app (t1 t2 : list event) :
  http_gets (t1 ++ t2) = http_gets t1 + http_gets t2.
Proof. apply filter_length_app. Qed.

Lemma uploads_app (t1 t2 : list event) :
  uploads (t1 ++ t2) = uploads t1 + uploads t2.
Proof. apply filter_length_app. Qed.

Lemma sleeps_app (t1 t2 : list event) :
  sleeps (t1 ++ t2) = sleeps t1 + sleeps t2.
Proof. apply filter_length_app. Qed.

(** The trace of [get_metadata]: the request, and the warning when an
    error was caught. *)
Lemma get_metadata_trace (w : world) (url : str) :
  exists l,
    trace (get_metadata w url)
    = Called (SessionGet url 10) (raised_of (session_get w url 10)) :: l
    /\ ((l = [] /\ forall m, ~ metadata_error w url m)
        \/ exists m,
             l = [Print (lit "Metadata extraction warning for " ++ url
                           ++ lit ": " ++ m)]
             /\ metadata_error w url m
             /\ outcome (get_metadata w url) = Ok None).
Proof.
  unfold metadata_error.
  destruct (session_get w url 10) as [r|e] eqn:Hg.
  - destruct (Z.eq_dec (status r) 200) as [Hs|Hs].
    + rewrite (get_metadata_200 _ _ Hg Hs).
      destruct (content_read r (1024 * 10)) as [chunk|[m|m]] eqn:Hc.
      * destruct (fromstring w chunk) as [tr|[m|m]] eqn:Hf.
        -- exists []. split; [reflexivity|]. left. split; [reflexivity|].
           intros m [H|(r' & Hr & _ & [H|(chunk' & Hc' & H)])]; try discriminate.
           injection Hr as <-. congruence.
           injection Hr as <-. rewrite Hc in Hc'. injection Hc' as <-. congruence.
        -- eexists. split; [reflexivity|]. right. exists m.
           split; [reflexivity|]. split; [|reflexivity].
           right. exists r. repeat split; try assumption. right. now exists chunk.
        -- exists []. split; [reflexivity|]. left. split; [reflexivity|].
           intros m' [H|(r' & Hr & _ & [H|(chunk' & Hc' & H)])]; try discriminate.
           injection Hr as <-. congruence.
           injection Hr as <-. rewrite Hc in Hc'. injection Hc' as <-. congruence.
      * eexists. split; [reflexivity|]. right. exists m.
        split; [reflexivity|]. split; [|reflexivity].
        right. exists r. repeat split; try assumption. now left.
      * exists []. split; [reflexivity|]. left. split; [reflexivity|].
        intros m' [H|(r' & Hr & _ & [H|(chunk' & Hc' & H)])]; try discriminate.
        injection Hr as <-. congruence.
        injection Hr as <-. congruence.
    + rewrite (get_metadata_not_200 _ _ Hg Hs).
      exists []. split; [reflexivity|]. left. split; [reflexivity|].
      intros m [H|(r' & Hr & Hs' & _)]; [discriminate|].
      injection Hr as <-. contradiction.
  - rewrite (get_metadata_get_raises _ _ Hg). destruct e as [m|m].
    + eexists. split; [reflexivity|]. right. exists m.
      split; [reflexivity|]. split; [now left|reflexivity].
    + exists []. split; [reflexivity|]. left. split; [reflexivity|].
      intros m' [H|(r' & Hr & _)]; discriminate.
Qed.

Lemma get_metadata_counts (w : world) (url : str) :
  http_gets (trace (get_metadata w url)) = 1
  /\ uploads (trace (get_metadata w url)) = 0
  /\ sleeps (trace (get_metadata w url)) = 0.
Proof.
  destruct (get_metadata_trace w url) as (l & -> & [[-> _]|(m & -> & _)]);
    (split; [|split]); reflexivity.
Qed.

(** The trace and the result of [fetch_image_to_memory], case by case. *)
Lemma fetch_image_eq (w : world) (url : str) :
  fetch_image_to_memory w url
  = match session_get w url 15 with
    | Ok r =>
        if (status r =? 200)%Z then
          match read r with
          | Ok data => ([Called (SessionGet url 15) None], Ok (Some data))
          | Raise (Exception m) =>
              ([Called (SessionGet url 15) None;
                Print (lit "Image download warning for " ++ url ++ lit ": " ++ m)],
               Ok None)
          | Raise (BaseException m) =>
              ([Called (SessionGet url 15) None], Raise (BaseException m))
          end
        else ([Called (SessionGet url 15) None], Ok None)
    | Raise (Exception m) =>
        ([Called (SessionGet url 15) (Some (Exception m));
          Print (lit "Image download warning for " ++ url ++ lit ": " ++ m)],
         Ok None)
    | Raise (BaseException m) =>
        ([Called (SessionGet url 15) (Some (BaseException m))],
         Raise (BaseException m))
    end.
Proof.
  unfold fetch_image_to_memory, do_call, bind, lift.
  destruct (session_get w url 15) as [r|[m|m]]; try reflexivity.
  destruct (status r =? 200)%Z; [|reflexivity].
  destruct (read r) as [data|[m|m]]; reflexivity.
Qed.

Lemma fetch_image_counts (w : world) (url : str) :
  http_gets (trace (fetch_image_to_memory w url)) = 1
  /\ uploads (trace (fetch_image_to_memory w url)) = 0
  /\ sleeps (trace (fetch_image_to_memory w url)) = 0.
Proof.
  rewrite fetch_image_eq.
  destruct (session_get w url 15) as [r|[m|m]];
    [|split; [|split]; reflexivity..].
  destruct (status r =? 200)%Z; [|split; [|split]; reflexivity].
  destruct (read r) as [data|[m|m]]; (split; [|split]); reflexivity.
Qed.

(** X4.  [fetch_image_to_memory] makes one request, with a timeout of 15
    seconds.  On status 200 it returns the whole body; on any other
    status it returns nothing, without a word; when the request or the
    read raises an error it prints a warning with the message and
    returns nothing.  No error leaves it. *)
Theorem fetch_image_behaviour (w : world) (url : str) :
  (forall r data,
      session_get w url 15 = Ok r -> status r = 200%Z -> read r = Ok data ->
      fetch_image_to_memory w url
      = ([Called (SessionGet url 15) None], Ok (Some data)))
  /\ (forall r,
        session_get w url 15 = Ok r -> status r <> 200%Z ->
        fetch_image_to_memory w url = ([Called (SessionGet url 15) None], Ok None))
  /\ (forall m,
        session_get w url 15 = Raise (Exception m) ->
        fetch_image_to_memory w url
        = ([Called (SessionGet url 15) (Some (Exception m));
            Print (lit "Image download warning for " ++ url ++ lit ": " ++ m)],
           Ok None))
  /\ (forall r m,
        session_get w url 15 = Ok r -> status r = 200%Z ->
        read r = Raise (Exception m) ->
        fetch_image_to_memory w url
        = ([Called (SessionGet url 15) None;
            Print (lit "Image download warning for " ++ url ++ lit ": " ++ m)],
           Ok None))
  /\ (forall m, outcome (fetch_image_to_memory w url) <> Raise (Exception m))
  /\ http_gets (trace (fetch_image_to_memory w url)) = 1.
Proof.
  split; [|split; [|split; [|split; [|split]]]].
  - intros r data Hg Hs Hr. rewrite fetch_image_eq, Hg, Hs, Hr. reflexivity.
  - intros r Hg Hs. rewrite fetch_image_eq, Hg.
    apply Z.eqb_neq in Hs. now rewrite Hs.
  - intros m Hg. now rewrite fetch_image_eq, Hg.
  - intros r m Hg Hs Hr. rewrite fetch_image_eq, Hg, Hs, Hr. reflexivity.
  - intros m. apply fetch_image_no_exception.
  - apply fetch_image_counts.
Qed.

(** X5.  [get_metadata] makes one request, with a timeout of 10 seconds,
    and nothing else but at most one printed line.  The warning is
    printed exactly when the request, the read of the prefix or the
    parser raised an error, and carries its message, and the result is
    then nothing; a status other than 200 gives nothing, without a
    word. *)
Theorem get_metadata_request_and_warning (w : world) (url : str) :
  (exists l,
      trace (get_metadata w url)
      = Called (SessionGet url 10) (raised_of (session_get w url 10)) :: l
      /\ ((l = [] /\ forall m, ~ metadata_error w url m)
          \/ exists m,
               l = [Print (lit "Metadata extraction warning for " ++ url
                             ++ lit ": " ++ m)]
               /\ metadata_error w url m
               /\ outcome (get_metadata w url) = Ok None))
  /\ (forall r,
        session_get w url 10 = Ok r -> status r <> 200%Z ->
        get_metadata w url = ([Called (SessionGet url 10) None], Ok None)).
Proof.
  split; [apply get_metadata_trace|].
  intros r Hg Hs. exact (get_metadata_not_200 _ _ Hg Hs).
Qed.

(** ** The calls of an iteration *)

Ltac count_solve :=
  unfold http_gets, uploads, sleeps, sends, polls; simpl; lia.

(** The trace of [embed_of]: the metadata fetch, then the image fetch
    when the metadata holds a thumbnail URL, then the upload when the
    image fetch gave the image. *)
Lemma embed_of_trace (w : world) (fu : option str) :
  trace (embed_of w fu)
  = match fu with
    | Some (c :: u) =>
        trace (get_metadata w (c :: u))
        ++ match outcome (get_metadata w (c :: u)) with
           | Ok (Some md) =>
               match thumbnail md with
               | Some (c' :: th) =>
                   trace (fetch_image_to_memory w (c' :: th))
                   ++ match outcome (fetch_image_to_memory w (c' :: th)) with
                      | Ok (Some data) =>
                          [Called (UploadBlob data)
                             (raised_of (upload_blob w data))]
                      | _ => []
                      end
               | _ => []
               end
           | _ => []
           end
    | _ => []
    end.
Proof.
  destruct fu as [[|c u]|]; try reflexivity.
  unfold embed_of, bind, do_call, trace, outcome.
  destruct (get_metadata w (c :: u)) as [t1 [[md|]|e1]]; cbn [fst snd ret];
    rewrite ?app_nil_r; try reflexivity.
  destruct (thumbnail md) as [[|c' th]|]; cbn [fst snd ret];
    rewrite ?app_nil_r; try reflexivity.
  destruct (fetch_image_to_memory w (c' :: th)) as [t2 [[data|]|e2]];
    cbn [fst snd ret]; rewrite ?app_nil_r; try reflexivity.
  destruct (upload_blob w data) as [blob|e3]; cbn [fst snd raised_of];
    rewrite ?app_nil_r; reflexivity.
Qed.

Lemma embed_of_counts (w : world) (fu : option str) :
  http_gets (trace (embed_of w fu)) <= 2
  /\ uploads (trace (embed_of w fu)) <= 1
  /\ sleeps (trace (embed_of w fu)) = 0.
Proof.
  rewrite embed_of_trace.
  destruct fu as [[|c u]|]; try (split; [|split]; count_solve).
  destruct (get_metadata_counts w (c :: u)) as (G1 & G2 & G3).
  rewrite http_gets_app, uploads_app, sleeps_app, G1, G2, G3.
  destruct (outcome (get_metadata w (c :: u))) as [[md|]|e1];
    try (split; [|split]; count_solve).
  destruct (thumbnail md) as [[|c' th]|];
    try (split; [|split]; count_solve).
  destruct (fetch_image_counts w (c' :: th)) as (F1 & F2 & F3).
  rewrite http_gets_app, uploads_app, sleeps_app, F1, F2, F3.
  destruct (outcome (fetch_image_to_memory w (c' :: th))) as [[data|]|e2];
    (split; [|split]); count_solve.
Qed.

(** The trace of an iteration on a post not yet relayed: the poll and
    the first line, the trace of [embed_of], and a tail with the publish
    call, if it is reached. *)
Lemma cycle_new_trace (w : world) (a : account) (uid : str) (prev : option str)
    (tw : tweet) (rest : list tweet) :
  get_user_tweets w uid 1 = Ok (tw :: rest) ->
  same_id prev (id tw) = false ->
  exists tail,
    trace (cycle w a uid prev)
    = new_tweet_events a uid tw
      ++ trace (embed_of w (fix_utm_source (full_url_of tw))) ++ tail
    /\ http_gets tail = 0 /\ uploads tail = 0 /\ polls tail = 0
    /\ sends tail <= 1
    /\ (forall st, outcome (cycle w a uid prev) = Ok st ->
          exists t, tail = t ++ [Sleep 60] /\ sleeps t = 0)
    /\ (forall txt e r, In (Called (SendPost txt e) r) tail ->
          outcome (embed_of w (fix_utm_source (full_url_of tw))) = Ok e).
Proof.
  intros G Hs. unfold trace at 1, outcome at 1.
  rewrite (cycle_new w a uid prev G Hs). unfold trace, outcome.
  destruct (embed_of w (fix_utm_source (full_url_of tw))) as [te [e|[m|m]]].
  - cbv zeta. cbn [fst snd].
    assert (Ht : http_gets (trim_events a tw) = 0 /\ uploads (trim_events a tw) = 0
                 /\ polls (trim_events a tw) = 0 /\ sends (trim_events a tw) = 0
                 /\ sleeps (trim_events a tw) = 0).
    { unfold trim_events. destruct (_ <? _); repeat split; reflexivity. }
    destruct Ht as (T1 & T2 & T3 & T4 & T5).
    destruct (send_post w (sanitize (text tw)) e) as [u|[m|m]]; cbn [fst snd];
      eexists; (split; [reflexivity|]);
      rewrite http_gets_app, uploads_app, polls_app, sends_app, T1, T2, T3, T4;
      (split; [reflexivity|]); (split; [reflexivity|]); (split; [reflexivity|]);
      (split; [unfold sends; simpl; lia|]); (split; [|]).
    + intros st _. eexists (trim_events a tw ++ [_; _]).
      split; [now rewrite <- app_assoc|]. now rewrite sleeps_app, T5.
    + intros txt e' r Hin. apply in_app_or in Hin as [Hin|Hin].
      * exfalso. revert Hin. now apply no_send_not_in.
      * destruct Hin as [Hin|[Hin|[Hin|[]]]]; try discriminate.
        now injection Hin as _ <- _.
    + intros st _. eexists (trim_events a tw ++ [_; _]).
      split; [now rewrite <- app_assoc|]. now rewrite sleeps_app, T5.
    + intros txt e' r Hin. apply in_app_or in Hin as [Hin|Hin].
      * exfalso. revert Hin. now apply no_send_not_in.
      * destruct Hin as [Hin|[Hin|[Hin|[]]]]; try discriminate.
        now injection Hin as _ <- _.
    + discriminate.
    + intros txt e' r Hin. apply in_app_or in Hin as [Hin|Hin].
      * exfalso. revert Hin. now apply no_send_not_in.
      * destruct Hin as [Hin|[]]. now injection Hin as _ <- _.
  - cbn [fst snd]. eexists. split; [reflexivity|].
    repeat (split; [count_solve|]). split.
    + intros st _. exists [Print (tag a ++ lit "Critical Loop Error: " ++ m)].
      split; reflexivity.
    + intros txt e r [Hin|[Hin|[]]]; discriminate.
  - cbn [fst snd]. exists []. rewrite app_nil_r. split; [reflexivity|].
    repeat (split; [count_solve|]). split.
    + discriminate.
    + intros txt e r [].
Qed.

Lemma embed_of_no_polls (w : world) (fu : option str) :
  polls (trace (embed_of w fu)) = 0.
Proof.
  destruct (embed_of_cases w fu) as (t & _ & Pt & [[H _]|[H|[H|H]]]).
  - now rewrite H.
  - destruct H as (url & md & th & data & blob & _ & _ & H). now rewrite H.
  - destruct H as (url & md & th & data & e & t0 & _ & _ & _ & H). now rewrite H.
  - destruct H as (m & H & _). now rewrite H.
Qed.

Lemma filter_length_zero_in (p : event -> bool) (t : list event) (ev : event) :
  length (filter p t) = 0 -> In ev t -> p ev = false.
Proof.
  induction t as [|x t IH]; simpl; intros H Hin; [contradiction|].
  destruct (p x) eqn:E; [discriminate|].
  destruct Hin as [<-|Hin]; [exact E|now apply IH].
Qed.

Lemma get_metadata_get_in (w : world) (url u : str) (tmo : Z) (r : option exn) :
  In (Called (SessionGet u tmo) r) (trace (get_metadata w url)) ->
  u = url /\ tmo = 10%Z.
Proof.
  destruct (get_metadata_trace w url) as (l & -> & [[-> _]|(m & -> & _)]);
    intros [H|H]; try (now injection H as <- <- _); try contradiction.
  destruct H as [H|[]]. discriminate.
Qed.

Lemma fetch_image_get_in (w : world) (url u : str) (tmo : Z) (r : option exn) :
  In (Called (SessionGet u tmo) r) (trace (fetch_image_to_memory w url)) ->
  u = url /\ tmo = 15%Z.
Proof.
  rewrite fetch_image_eq.
  destruct (session_get w url 15) as [rs|[m|m]].
  - destruct (status rs =? 200)%Z.
    + destruct (read rs) as [data|[m|m]]; cbn [trace fst];
        intros [H|H]; try (now injection H as <- <- _); try contradiction.
      destruct H as [H|[]]. discriminate.
    + intros [H|[]]. now injection H as <- <- _.
  - intros [H|[H|[]]]; [now injection H as <- <- _|discriminate].
  - intros [H|[]]. now injection H as <- <- _.
Qed.

(** The requests of [embed_of]: the page of the rewritten URL, then the
    thumbnail the page names. *)
Lemma embed_of_get_in (w : world) (fu : option str) (u : str) (tmo : Z)
    (r : option exn) :
  In (Called (SessionGet u tmo) r) (trace (embed_of w fu)) ->
  exists url, fu = Some url /\ url <> []
    /\ ((tmo = 10%Z /\ u = url)
        \/ (tmo = 15%Z
            /\ exists md, outcome (get_metadata w url) = Ok (Some md)
                 /\ thumbnail md = Some u /\ u <> [])).
Proof.
  rewrite embed_of_trace. destruct fu as [[|c u0]|]; try contradiction.
  intros Hin. exists (c :: u0). split; [reflexivity|]. split; [discriminate|].
  apply in_app_or in Hin as [Hin|Hin].
  - apply get_metadata_get_in in Hin as [-> ->]. now left.
  - destruct (outcome (get_metadata w (c :: u0))) as [[md|]|e1]; try contradiction.
    destruct (thumbnail md) as [[|c' th]|] eqn:Th; try contradiction.
    apply in_app_or in Hin as [Hin|Hin].
    + apply fetch_image_get_in in Hin as [-> ->]. right. split; [reflexivity|].
      exists md. split; [reflexivity|]. split; [exact Th|discriminate].
    + destruct (outcome (fetch_image_to_memory w (c' :: th))) as [[data|]|e2];
        try contradiction.
      destruct Hin as [Hin|[]]. discriminate.
Qed.

(** The upload of [embed_of]: made exactly when the three conditions of
    an embed hold, once, and its blob is the thumbnail of the embed. *)
Lemma embed_of_uploads (w : world) (fu : option str) :
  (outcome (embed_of w fu) = Ok None -> uploads (trace (embed_of w fu)) = 0)
  /\ (forall x, outcome (embed_of w fu) = Ok (Some x) ->
        exists data,
          upload_blob w data = Ok (embed_thumb x)
          /\ uploads (trace (embed_of w fu)) = 1
          /\ In (Called (UploadBlob data) None) (trace (embed_of w fu)))
  /\ (forall data r,
        In (Called (UploadBlob data) r) (trace (embed_of w fu)) ->
        exists url md th,
          embed_ready w fu url md th data /\ r = raised_of (upload_blob w data)).
Proof.
  destruct fu as [[|c u]|];
    try (split; [reflexivity|split; [discriminate|intros data r []]]).
  destruct (get_metadata_counts w (c :: u)) as (_ & G2 & _).
  assert (Gin : forall data r,
            ~ In (Called (UploadBlob data) r) (trace (get_metadata w (c :: u)))).
  { intros data r Hin. now apply (filter_length_zero_in is_upload _ _ G2) in Hin. }
  rewrite embed_of_trace. unfold embed_of, bind, do_call, outcome, trace in *.
  unfold embed_ready, outcome.
  destruct (get_metadata w (c :: u)) as [t1 [[md|]|e1]] eqn:G; cbn [fst snd ret] in *;
    try (rewrite app_nil_r; split; [intros _; exact G2|split; [discriminate|]];
         intros data r Hin; now destruct (Gin data r)).
  destruct (thumbnail md) as [[|c' th]|] eqn:Th; cbn [fst snd ret] in *;
    try (rewrite app_nil_r; split; [intros _; exact G2|split; [discriminate|]];
         intros data r Hin; now destruct (Gin data r)).
  destruct (fetch_image_counts w (c' :: th)) as (_ & F2 & _).
  assert (Fin : forall data r,
            ~ In (Called (UploadBlob data) r)
                 (trace (fetch_image_to_memory w (c' :: th)))).
  { intros data r Hin. now apply (filter_length_zero_in is_upload _ _ F2) in Hin. }
  unfold trace in *.
  destruct (fetch_image_to_memory w (c' :: th)) as [t2 [[data|]|e2]] eqn:F;
    cbn [fst snd ret] in *;
    try (rewrite app_nil_r, uploads_app, G2, F2;
         split; [reflexivity|split; [discriminate|]];
         intros data' r Hin; apply in_app_or in Hin as [Hin|Hin];
         [now destruct (Gin data' r)|now destruct (Fin data' r)]).
  rewrite !uploads_app, G2, F2.
  destruct (upload_blob w data) as [blob|e3] eqn:U; cbn [fst snd raised_of].
  - split; [discriminate|]. split.
    + intros x Hx. injection Hx as <-. exists data. cbn [embed_thumb].
      split; [exact U|]. split; [reflexivity|].
      apply in_or_app. right. apply in_or_app. right. now left.
    + intros data' r Hin. apply in_app_or in Hin as [Hin|Hin];
        [now destruct (Gin data' r)|].
      apply in_app_or in Hin as [Hin|Hin]; [now destruct (Fin data' r)|].
      destruct Hin as [Hin|[]]. injection Hin as <- <-.
      exists (c :: u), md, (c' :: th). rewrite U, G, F.
      repeat split; try discriminate; assumption || reflexivity.
  - split; [discriminate|]. split; [discriminate|].
    intros data' r Hin. apply in_app_or in Hin as [Hin|Hin];
      [now destruct (Gin data' r)|].
    apply in_app_or in Hin as [Hin|Hin]; [now destruct (Fin data' r)|].
    destruct Hin as [Hin|[]]. injection Hin as <- <-.
    exists (c :: u), md, (c' :: th). rewrite U, G, F.
    repeat split; try discriminate; assumption || reflexivity.
Qed.

(** The trace of an iteration that does not work on a post: the poll
    and, unless it was interrupted, a sleep. *)
Lemma cycle_not_new_trace (w : world) (a : account) (uid : str)
    (prev : option str) :
  (forall tw rest, get_user_tweets w uid 1 = Ok (tw :: rest) ->
                   same_id prev (id tw) = true) ->
  exists tail,
    trace (cycle w a uid prev)
    = Called (GetUserTweets uid 1) (raised_of (get_user_tweets w uid 1)) :: tail
    /\ http_gets tail = 0 /\ uploads tail = 0 /\ polls tail = 0 /\ sends tail = 0
    /\ (forall st, outcome (cycle w a uid prev) = Ok st ->
          exists t, tail = t ++ [Sleep 60] /\ sleeps t = 0).
Proof.
  intros Hsame. unfold trace, outcome.
  destruct (get_user_tweets w uid 1) as [[|tw rest]|[m|m]] eqn:G.
  - rewrite (cycle_no_tweets w a uid prev G). eexists. split; [reflexivity|].
    repeat (split; [reflexivity|]). intros st _. now exists [].
  - rewrite (cycle_same w a uid prev G (Hsame _ _ eq_refl)).
    eexists. split; [reflexivity|].
    repeat (split; [reflexivity|]). intros st _. now exists [].
  - rewrite (cycle_poll_raises w a uid prev G). eexists. split; [reflexivity|].
    repeat (split; [reflexivity|]). intros st _.
    now exists [Print (tag a ++ lit "Critical Loop Error: " ++ m)].
  - rewrite (cycle_poll_raises w a uid prev G). eexists. split; [reflexivity|].
    repeat (split; [reflexivity|]). discriminate.
Qed.

(** An iteration works on a post or not. *)
Lemma cycle_new_or_not (w : world) (prev : option str) (uid : str) :
  (exists tw rest, get_user_tweets w uid 1 = Ok (tw :: rest)
                   /\ same_id prev (id tw) = false)
  \/ (forall tw rest, get_user_tweets w uid 1 = Ok (tw :: rest) ->
                      same_id prev (id tw) = true).
Proof.
  destruct (get_user_tweets w uid 1) as [[|tw rest]|e]; try (right; discriminate).
  destruct (same_id prev (id tw)) eqn:E.
  - right. intros tw' rest' H. now injection H as <- _.
  - left. now exists tw, rest.
Qed.

(** The calls of one iteration, counted. *)
Lemma cycle_calls
    (w : world) (a : account) (uid : str) (prev : option str) :
  (exists t,
      trace (cycle w a uid prev)
      = Called (GetUserTweets uid 1) (raised_of (get_user_tweets w uid 1)) :: t
      /\ polls t = 0)
  /\ http_gets (trace (cycle w a uid prev)) <= 2
  /\ uploads (trace (cycle w a uid prev)) <= 1
  /\ sends (trace (cycle w a uid prev)) <= 1
  /\ (forall st, outcome (cycle w a uid prev) = Ok st ->
        exists t, trace (cycle w a uid prev) = t ++ [Sleep 60] /\ sleeps t = 0).
Proof.
  destruct (cycle_new_or_not w prev uid) as [(tw & rest & G & Hs)|Hsame].
  - destruct (cycle_new_trace w a uid prev G Hs)
      as (tail & Ht & T1 & T2 & T3 & T4 & Tsleep & _).
    destruct (embed_of_counts w (fix_utm_source (full_url_of tw))) as (E1 & E2 & E3).
    pose proof (embed_of_no_polls w (fix_utm_source (full_url_of tw))) as E4.
    pose proof (embed_of_no_send w (fix_utm_source (full_url_of tw))) as E5.
    rewrite Ht. split; [|split; [|split; [|split]]].
    + rewrite G.
      exists ([Print (tag a ++ lit "New Tweet: " ++ firstn 50 (text tw)
                        ++ lit "...")]
              ++ trace (embed_of w (fix_utm_source (full_url_of tw))) ++ tail).
      split; [reflexivity|]. rewrite !polls_app, E4, T3. reflexivity.
    + rewrite !http_gets_app, T1. unfold http_gets at 1. simpl. lia.
    + rewrite !uploads_app, T2. unfold uploads at 1. simpl. lia.
    + rewrite !sends_app, E5. unfold sends at 1. simpl. lia.
    + intros st Ho. destruct (Tsleep st Ho) as (t & -> & Hsl).
      exists (new_tweet_events a uid tw
              ++ trace (embed_of w (fix_utm_source (full_url_of tw))) ++ t).
      split; [now rewrite <- !app_assoc|].
      rewrite !sleeps_app, E3, Hsl. reflexivity.
  - destruct (cycle_not_new_trace w a uid prev Hsame)
      as (tail & Ht & T1 & T2 & T3 & T4 & Tsleep).
    rewrite Ht. split; [|split; [|split; [|split]]].
    + now exists tail.
    + unfold http_gets in *. simpl. lia.
    + unfold uploads in *. simpl. lia.
    + unfold sends in *. simpl. lia.
    + intros st Ho. destruct (Tsleep st Ho) as (t & -> & Hsl).
      exists (Called (GetUserTweets uid 1) (raised_of (get_user_tweets w uid 1)) :: t).
      split; [reflexivity|]. unfold sleeps in *. simpl. exact Hsl.
Qed.

(** X6.  An iteration of the loop starts with its one poll, for one
    post; it makes at most two HTTP requests, at most one upload and at
    most one publish call; and unless it is interrupted it ends with its
    one sleep, of 60 seconds, whatever happened before. *)
Theorem iteration_calls_are_bounded
    (w : world) (a : account) (uid : str) (prev : option str) :
  (exists t,
      trace (cycle w a uid prev)
      = Called (GetUserTweets uid 1) (raised_of (get_user_tweets w uid 1)) :: t
      /\ polls t = 0)
  /\ http_gets (trace (cycle w a uid prev)) <= 2
  /\ uploads (trace (cycle w a uid prev)) <= 1
  /\ sends (trace (cycle w a uid prev)) <= 1
  /\ (forall st, outcome (cycle w a uid prev) = Ok st ->
        exists t, trace (cycle w a uid prev) = t ++ [Sleep 60] /\ sleeps t = 0).
Proof. apply cycle_calls. Qed.

(** X7.  The HTTP requests of an iteration are made for a post not yet
    relayed only: the request with the 10 second timeout goes to the
    first URL of the post as rewritten by [fix_utm_source], and the
    request with the 15 second timeout goes to the thumbnail URL found
    in the metadata of that page. *)
Theorem iteration_requests
    (w : world) (a : account) (uid : str) (prev : option str)
    (u : str) (tmo : Z) (r : option exn) :
  In (Called (SessionGet u tmo) r) (trace (cycle w a uid prev)) ->
  exists tw url,
    latest w uid = Some tw /\ same_id prev (id tw) = false
    /\ fix_utm_source (full_url_of tw) = Some url /\ url <> []
    /\ ((tmo = 10%Z /\ u = url)
        \/ (tmo = 15%Z
            /\ exists md, outcome (get_metadata w url) = Ok (Some md)
                 /\ thumbnail md = Some u /\ u <> [])).
Proof.
  intros Hin.
  destruct (cycle_new_or_not w prev uid) as [(tw & rest & G & Hs)|Hsame].
  - destruct (cycle_new_trace w a uid prev G Hs) as (tail & Ht & T1 & _).
    rewrite Ht in Hin. apply in_app_or in Hin as [Hin|Hin].
    { destruct Hin as [Hin|[Hin|[]]]; discriminate. }
    apply in_app_or in Hin as [Hin|Hin].
    + apply embed_of_get_in in Hin as (url & Hfu & Hne & H).
      exists tw, url. unfold latest. rewrite G. now repeat split.
    + apply (filter_length_zero_in is_get _ _ T1) in Hin. discriminate.
  - destruct (cycle_not_new_trace w a uid prev Hsame) as (tail & Ht & T1 & _).
    rewrite Ht in Hin. destruct Hin as [Hin|Hin]; [discriminate|].
    apply (filter_length_zero_in is_get _ _ T1) in Hin. discriminate.
Qed.

(** X8.  A blob is uploaded only when the metadata, the thumbnail URL
    and the image of the post are there, and it is the image that is
    uploaded.  A post published without embed has had no upload; a post
    published with an embed has had one upload, which returned the
    thumbnail of the embed. *)
Theorem upload_only_for_embed
    (w : world) (a : account) (uid : str) (prev : option str) :
  (forall data r,
      In (Called (UploadBlob data) r) (trace (cycle w a uid prev)) ->
      exists tw url md th,
        latest w uid = Some tw
        /\ embed_ready w (fix_utm_source (full_url_of tw)) url md th data
        /\ r = raised_of (upload_blob w data))
  /\ (forall txt r,
        In (Called (SendPost txt None) r) (trace (cycle w a uid prev)) ->
        uploads (trace (cycle w a uid prev)) = 0)
  /\ (forall txt x r,
        In (Called (SendPost txt (Some x)) r) (trace (cycle w a uid prev)) ->
        exists data,
          upload_blob w data = Ok (embed_thumb x)
          /\ In (Called (UploadBlob data) None) (trace (cycle w a uid prev))
          /\ uploads (trace (cycle w a uid prev)) = 1).
Proof.
  destruct (cycle_new_or_not w prev uid) as [(tw & rest & G & Hs)|Hsame].
  - destruct (cycle_new_trace w a uid prev G Hs)
      as (tail & Ht & T1 & T2 & T3 & T4 & _ & Tsend).
    destruct (embed_of_uploads w (fix_utm_source (full_url_of tw)))
      as (U0 & U1 & Uin).
    pose proof (embed_of_no_send w (fix_utm_source (full_url_of tw))) as E5.
    assert (Hsend : forall txt e r,
              In (Called (SendPost txt e) r) (trace (cycle w a uid prev)) ->
              outcome (embed_of w (fix_utm_source (full_url_of tw))) = Ok e).
    { intros txt e r Hin. rewrite Ht in Hin.
      apply in_app_or in Hin as [Hin|Hin].
      { destruct Hin as [Hin|[Hin|[]]]; discriminate. }
      apply in_app_or in Hin as [Hin|Hin]; [|now apply (Tsend txt e r)].
      now destruct (no_send_not_in _ txt e r E5). }
    rewrite Ht. split; [|split].
    + intros data r Hin. apply in_app_or in Hin as [Hin|Hin].
      { destruct Hin as [Hin|[Hin|[]]]; discriminate. }
      apply in_app_or in Hin as [Hin|Hin].
      * destruct (Uin data r Hin) as (url & md & th & Hr & ->).
        exists tw, url, md, th. unfold latest. rewrite G.
        split; [reflexivity|split; [exact Hr|reflexivity]].
      * apply (filter_length_zero_in is_upload _ _ T2) in Hin. discriminate.
    + intros txt r Hin. rewrite <- Ht in Hin. apply Hsend in Hin.
      rewrite !uploads_app, (U0 Hin), T2. reflexivity.
    + intros txt x r Hin. rewrite <- Ht in Hin. apply Hsend in Hin.
      destruct (U1 x Hin) as (data & Hu & Hc & Hi).
      exists data. split; [exact Hu|]. split.
      * apply in_or_app. right. apply in_or_app. now left.
      * rewrite !uploads_app, Hc, T2. reflexivity.
  - destruct (cycle_not_new_trace w a uid prev Hsame)
      as (tail & Ht & T1 & T2 & T3 & T4 & _).
    rewrite Ht. split; [|split].
    + intros data r [Hin|Hin]; [discriminate|].
      apply (filter_length_zero_in is_upload _ _ T2) in Hin. discriminate.
    + intros txt r [Hin|Hin]; [discriminate|].
      apply (filter_length_zero_in is_send _ _ T4) in Hin. discriminate.
    + intros txt x r [Hin|Hin]; [discriminate|].
      apply (filter_length_zero_in is_send _ _ T4) in Hin. discriminate.
Qed.

Lemma iteration_requests_witness :
  In (Called (SessionGet (lit "http://img/x.png") 15) None)
     (trace (cycle world_ok news (lit "42") None))
  /\ exists tw url,
       latest world_ok (lit "42") = Some tw /\ same_id None (id tw) = false
       /\ fix_utm_source (full_url_of tw) = Some url /\ url <> []
       /\ ((15 = 10 /\ lit "http://img/x.png" = url)%Z
           \/ (15 = 15
               /\ exists md, outcome (get_metadata world_ok url) = Ok (Some md)
                    /\ thumbnail md = Some (lit "http://img/x.png")
                    /\ lit "http://img/x.png" <> [])%Z).
Proof.
  assert (H : In (Called (SessionGet (lit "http://img/x.png") 15) None)
                 (trace (cycle world_ok news (lit "42") None))).
  { vm_compute. do 3 right. left. reflexivity. }
  split; [exact H|].
  exact (@iteration_requests world_ok news (lit "42") None _ _ _ H).
Defined.

(** ** The loop as a whole *)

Lemma loop_cons_ok (w : world) (ws : list world) (a : account) (uid : str)
    (prev st : option str) :
  outcome (cycle w a uid prev) = Ok st ->
  trace (loop (w :: ws) a uid prev)
  = trace (cycle w a uid prev) ++ trace (loop ws a uid st)
  /\ outcome (loop (w :: ws) a uid prev) = outcome (loop ws a uid st).
Proof.
  cbn [loop]. unfold bind, trace, outcome.
  destruct (cycle w a uid prev) as [tc rc]; cbn [fst snd]. intros ->.
  now destruct (loop ws a uid st).
Qed.

Lemma loop_cons_raise (w : world) (ws : list world) (a : account) (uid : str)
    (prev : option str) (e : exn) :
  outcome (cycle w a uid prev) = Raise e ->
  trace (loop (w :: ws) a uid prev) = trace (cycle w a uid prev)
  /\ outcome (loop (w :: ws) a uid prev) = Raise e.
Proof.
  cbn [loop]. unfold bind, trace, outcome.
  destruct (cycle w a uid prev) as [tc rc]; cbn [fst snd]. now intros ->.
Qed.

(** X9.  Over [n] iterations the loop polls at most [n] times, calls
    publish at most [n] times, uploads at most [n] blobs and makes at
    most [2 n] HTTP requests; when the [n] iterations have run to their
    end it has polled [n] times and slept [n] times. *)
Theorem loop_calls_are_bounded
    (ws : list world) (a : account) (uid : str) (prev : option str) :
  polls (trace (loop ws a uid prev)) <= length ws
  /\ sends (trace (loop ws a uid prev)) <= length ws
  /\ uploads (trace (loop ws a uid prev)) <= length ws
  /\ http_gets (trace (loop ws a uid prev)) <= 2 * length ws
  /\ (forall st, outcome (loop ws a uid prev) = Ok st ->
        polls (trace (loop ws a uid prev)) = length ws
        /\ sleeps (trace (loop ws a uid prev)) = length ws).
Proof.
  revert prev. induction ws as [|w ws IH]; intros prev.
  - repeat split; unfold polls, sends, uploads, http_gets; simpl; lia.
  - destruct (cycle_calls w a uid prev) as (_ & C1 & C2 & C3 & C4).
    pose proof (cycle_polls_once w a uid prev) as C0.
    destruct (outcome (cycle w a uid prev)) as [st|e] eqn:Ho.
    + destruct (@loop_cons_ok w ws a uid prev st Ho) as (-> & ->).
      destruct (IH st) as (I0 & I1 & I2 & I3 & I4).
      rewrite polls_app, sends_app, uploads_app, http_gets_app, sleeps_app, C0.
      cbn [length].
      split; [lia|]. split; [lia|]. split; [lia|]. split; [lia|].
      intros st' Hst'. destruct (I4 st' Hst') as (J0 & J1).
      destruct (C4 st eq_refl) as (t & Ht & Hsl).
      rewrite J0, J1, Ht, sleeps_app, Hsl. split; reflexivity.
    + destruct (@loop_cons_raise w ws a uid prev e Ho) as (-> & ->). cbn [length].
      split; [lia|]. split; [lia|]. split; [lia|]. split; [lia|]. discriminate.
Qed.

(** The state an iteration hands on: the one it got, with no publish
    call that returned, or the identifier of the post it fetched, with
    one. *)
Lemma cycle_state (w : world) (a : account) (uid : str) (prev st : option str) :
  outcome (cycle w a uid prev) = Ok st ->
  (st = prev /\ successful_sends (trace (cycle w a uid prev)) = 0)
  \/ (exists tw, latest w uid = Some tw /\ st = Some (id tw)
                 /\ successful_sends (trace (cycle w a uid prev)) = 1).
Proof.
  intros Ho. pose proof (cycle_classified w a uid prev) as K.
  rewrite Ho in K.
  remember (trace (cycle w a uid prev)) as tr eqn:Etr.
  remember (Ok st) as oc eqn:Eoc.
  assert (Hsucc0 : forall t, sends t = 0 -> successful_sends t = 0).
  { intros t Ht. pose proof (successful_sends_le t). lia. }
  destruct K as [H|t m St Pt|t m St Pt|t tw e' m Hl Hs St Pt He Hp
                 |t tw e' Hl Hs St Pt He Hp|t tw e' m Hl Hs St Pt He Hp];
    try discriminate; injection Eoc as <-.
  - left. split; reflexivity.
  - left. split; [reflexivity|].
    rewrite successful_sends_app, (Hsucc0 _ St). reflexivity.
  - right. exists tw. repeat split; try assumption.
    rewrite successful_sends_app, (Hsucc0 _ St). reflexivity.
  - left. split; [reflexivity|].
    rewrite successful_sends_app, (Hsucc0 _ St). reflexivity.
Qed.

(** X10.  The identifier the loop holds after any number of iterations
    is the one it started with or the identifier of a post it fetched;
    it is the one it started with when no publish call returned; and
    once an identifier is held, one is held ever after. *)
Theorem stored_id_is_a_fetched_id
    (ws : list world) (a : account) (uid : str) (prev st : option str) :
  outcome (loop ws a uid prev) = Ok st ->
  (st = prev
   \/ exists w tw, In w ws /\ latest w uid = Some tw /\ st = Some (id tw))
  /\ (successful_sends (trace (loop ws a uid prev)) = 0 -> st = prev)
  /\ (prev <> None -> st <> None).
Proof.
  revert prev. induction ws as [|w ws IH]; intros prev Ho.
  - injection Ho as <-. split; [now left|]. split; [reflexivity|tauto].
  - destruct (outcome (cycle w a uid prev)) as [st1|e] eqn:Hc.
    2:{ destruct (@loop_cons_raise w ws a uid prev e Hc) as (_ & Hr). congruence. }
    destruct (@loop_cons_ok w ws a uid prev st1 Hc) as (Ht & Hr). rewrite Hr in Ho. rewrite Ht.
    destruct (IH st1 Ho) as (I1 & I2 & I3).
    destruct (cycle_state w a uid prev Hc) as [[-> S0]|(tw & Hl & -> & S1)].
    + split; [|split].
      * destruct I1 as [->|(w' & tw & Hin & Hl & ->)]; [now left|].
        right. exists w', tw. split; [now right|]. now split.
      * rewrite successful_sends_app, S0. exact I2.
      * exact I3.
    + split; [|split].
      * right. destruct I1 as [->|(w' & tw' & Hin & Hl' & ->)].
        -- exists w, tw. split; [now left|]. now split.
        -- exists w', tw'. split; [now right|]. now split.
      * rewrite successful_sends_app, S1. lia.
      * intros _. apply I3. discriminate.
Qed.

Lemma stored_id_is_a_fetched_id_witness :
  outcome (loop [world_publish_error; world_long; world_upload_error]
             news (lit "42") None) = Ok (Some (lit "1002"))
  /\ (Some (lit "1002") = None
      \/ exists w tw,
           In w [world_publish_error; world_long; world_upload_error]
           /\ latest w (lit "42") = Some tw /\ Some (lit "1002") = Some (id tw)).
Proof.
  assert (H : outcome (loop [world_publish_error; world_long; world_upload_error]
                         news (lit "42") None) = Ok (Some (lit "1002"))).
  { vm_compute. reflexivity. }
  split; [exact H|].
  exact (proj1 (@stored_id_is_a_fetched_id _ news (lit "42") None _ H)).
Defined.

(** An iteration on a post not yet relayed, with the embed worked out
    and a publish call that returns. *)
Lemma cycle_publishes (w : world) (a : account) (uid : str) (prev : option str)
    (tw : tweet) (e : option embed) :
  latest w uid = Some tw ->
  same_id prev (id tw) = false ->
  outcome (embed_of w (fix_utm_source (full_url_of tw))) = Ok e ->
  send_post w (sanitize (text tw)) e = Ok tt ->
  outcome (cycle w a uid prev) = Ok (Some (id tw))
  /\ successful_sends (trace (cycle w a uid prev)) = 1
  /\ In (Called (SendPost (sanitize (text tw)) e) None)
        (trace (cycle w a uid prev)).
Proof.
  unfold latest. intros Hl Hs He Hp.
  destruct (get_user_tweets w uid 1) as [[|tw' rest]|ex] eqn:G; try discriminate.
  injection Hl as ->.
  pose proof (embed_of_no_send w (fix_utm_source (full_url_of tw))) as Se.
  pose proof (successful_sends_le
                (trace (embed_of w (fix_utm_source (full_url_of tw))))) as Le.
  destruct (trim_events_counts a tw) as [St _].
  pose proof (successful_sends_le (trim_events a tw)) as Lt.
  unfold outcome, trace in *. rewrite (cycle_new w a uid prev G Hs).
  destruct (embed_of w (fix_utm_source (full_url_of tw))) as [te re].
  cbn [fst snd] in *. subst re. cbv zeta. rewrite Hp. cbn [fst snd].
  split; [reflexivity|]. split.
  - rewrite !successful_sends_app.
    replace (successful_sends te) with 0 by lia.
    replace (successful_sends (trim_events a tw)) with 0 by lia.
    reflexivity.
  - rewrite !in_app_iff. do 3 right. now left.
Qed.

Lemma same_id_false (x y : str) : x <> y -> same_id (Some x) y = false.
Proof.
  intros H. simpl. destruct (str_eqb x y) eqn:E; [|reflexivity].
  apply str_eqb_eq in E. contradiction.
Qed.

(** X11.  Only the last relayed identifier is remembered.  When a post
    is the latest again after another post has been relayed, it is
    published a second time. *)
Theorem dedup_remembers_last_post_only
    (w1 w2 w3 : world) (a : account) (uid : str) (prev : option str)
    (tw1 tw2 : tweet) (e1 e2 e3 : option embed) :
  latest w1 uid = Some tw1 -> latest w2 uid = Some tw2 ->
  latest w3 uid = Some tw1 ->
  same_id prev (id tw1) = false ->
  id tw1 <> id tw2 ->
  outcome (embed_of w1 (fix_utm_source (full_url_of tw1))) = Ok e1 ->
  send_post w1 (sanitize (text tw1)) e1 = Ok tt ->
  outcome (embed_of w2 (fix_utm_source (full_url_of tw2))) = Ok e2 ->
  send_post w2 (sanitize (text tw2)) e2 = Ok tt ->
  outcome (embed_of w3 (fix_utm_source (full_url_of tw1))) = Ok e3 ->
  send_post w3 (sanitize (text tw1)) e3 = Ok tt ->
  successful_sends (trace (loop [w1; w2; w3] a uid prev)) = 3
  /\ outcome (loop [w1; w2; w3] a uid prev) = Ok (Some (id tw1))
  /\ exists t1 t2 t3,
       trace (loop [w1; w2; w3] a uid prev)
       = t1 ++ Called (SendPost (sanitize (text tw1)) e1) None
            :: t2 ++ Called (SendPost (sanitize (text tw1)) e3) None :: t3.
Proof.
  intros L1 L2 L3 Hs Hne E1 P1 E2 P2 E3 P3.
  destruct (@cycle_publishes w1 a uid prev tw1 e1 L1 Hs E1 P1) as (O1 & S1 & I1).
  assert (Hs2 : same_id (Some (id tw1)) (id tw2) = false)
    by now apply same_id_false.
  destruct (@cycle_publishes w2 a uid (Some (id tw1)) tw2 e2 L2 Hs2 E2 P2)
    as (O2 & S2 & _).
  assert (Hs3 : same_id (Some (id tw2)) (id tw1) = false)
    by (apply same_id_false; congruence).
  destruct (@cycle_publishes w3 a uid (Some (id tw2)) tw1 e3 L3 Hs3 E3 P3)
    as (O3 & S3 & I3).
  destruct (@loop_cons_ok w1 [w2; w3] a uid prev _ O1) as (-> & ->).
  destruct (@loop_cons_ok w2 [w3] a uid _ _ O2) as (-> & ->).
  destruct (@loop_cons_ok w3 [] a uid _ _ O3) as (-> & ->).
  cbn [loop ret trace outcome fst snd]. rewrite app_nil_r.
  split; [|split; [reflexivity|]].
  - rewrite !successful_sends_app.
    now rewrite S1, S2, S3.
  - apply in_split in I1 as (t1 & t1' & H1).
    apply in_split in I3 as (t3' & t3 & H3).
    rewrite H1, H3.
    exists t1, (t1' ++ trace (cycle w2 a uid (Some (id tw1))) ++ t3'), t3.
    rewrite <- !app_assoc. cbn [app]. rewrite <- ?app_assoc. reflexivity.
Qed.

Lemma dedup_remembers_last_post_only_witness :
  latest world_ok (lit "42") = Some link_tweet
  /\ latest world_long (lit "42") = Some long_tweet
  /\ id link_tweet <> id long_tweet
  /\ successful_sends
       (trace (loop [world_ok; world_long; world_ok] news (lit "42") None)) = 3.
Proof.
  assert (Hne : id link_tweet <> id long_tweet) by discriminate.
  split; [reflexivity|]. split; [reflexivity|]. split; [exact Hne|].
  refine (proj1 (@dedup_remembers_last_post_only
            world_ok world_long world_ok news (lit "42") None
            link_tweet long_tweet (Some link_embed) None (Some link_embed)
            eq_refl eq_refl eq_refl eq_refl Hne _ eq_refl _ eq_refl _ eq_refl));
    vm_compute; reflexivity.
Defined.

(** X12.  The link of a published embed is the first URL of the post as
    rewritten by [fix_utm_source]; it never holds [utm_source=twitter]. *)
Theorem published_link_is_rewritten
    (w : world) (a : account) (uid : str) (prev : option str)
    (txt : str) (x : embed) (r : option exn) :
  In (Called (SendPost txt (Some x)) r) (trace (cycle w a uid prev)) ->
  exists tw orig,
    latest w uid = Some tw /\ full_url_of tw = Some orig
    /\ embed_uri x = rewrite orig
    /\ forall k, startswith utm_twitter (skipn k (embed_uri x)) = false.
Proof.
  intros Hin.
  destruct (cycle_send_inv _ _ _ _ _ _ _ Hin)
    as (tw & t & l & Hl & _ & _ & He & _).
  destruct (embed_of_cases w (fix_utm_source (full_url_of tw)))
    as (te & _ & _ & [[H _]|[H|[H|H]]]).
  - rewrite H in He. discriminate.
  - destruct H as (url & md & th & data & blob & Hr & _ & H).
    rewrite H in He. injection He as <-. cbn [embed_uri].
    destruct Hr as (Hfu & Hne & _).
    destruct (full_url_of tw) as [[|c o]|] eqn:Efu; try discriminate.
    injection Hfu as <-. exists tw, (c :: o).
    split; [exact Hl|]. split; [exact Efu|]. split; [reflexivity|].
    intros k. apply rewrite_no_token.
  - destruct H as (url & md & th & data & e' & t0 & _ & _ & _ & H).
    rewrite H in He. discriminate.
  - destruct H as (m & H & _). rewrite H in He. discriminate.
Qed.

Lemma published_link_is_rewritten_witness :
  In (Called (SendPost (lit "Check this out") (Some link_embed)) None)
     (trace (cycle world_ok news (lit "42") None))
  /\ exists tw orig,
       latest world_ok (lit "42") = Some tw /\ full_url_of tw = Some orig
       /\ embed_uri link_embed = rewrite orig
       /\ forall k, startswith utm_twitter (skipn k (embed_uri link_embed)) = false.
Proof.
  assert (H : In (Called (SendPost (lit "Check this out") (Some link_embed)) None)
                 (trace (cycle world_ok news (lit "42") None))).
  { vm_compute. do 5 right. left. reflexivity. }
  split; [exact H|].
  exact (@published_link_is_rewritten world_ok news (lit "42") None _ _ _ H).
Defined.

(** ** The start of a relay, event by event *)

(** [monitor_tweets] once the cookies are dealt with: the login and what
    follows it. *)
Lemma monitor_after_cookies (sw : startup_world) (ws : list world) (a : account) :
  cookies_exist sw = false \/ load_cookies sw = Ok tt ->
  monitor_tweets sw ws a
  = match login sw (bluesky_user a) (bluesky_pass a) with
    | Raise (Exception m) =>
        (cookie_events sw a
           ++ [Called (Login (bluesky_user a) (bluesky_pass a))
                 (Some (Exception m));
               Print (tag a ++ lit "Login failed: " ++ m)],
         Ok Returned)
    | Raise (BaseException m) =>
        (cookie_events sw a
           ++ [Called (Login (bluesky_user a) (bluesky_pass a))
                 (Some (BaseException m))],
         Raise (BaseException m))
    | Ok _ =>
        let started :=
          cookie_events sw a
            ++ [Called (Login (bluesky_user a) (bluesky_pass a)) None;
                Print (tag a ++ lit "Logged into Bluesky.")] in
        match get_user_by_screen_name sw (twitter_user a) with
        | Raise e =>
            (started ++ [Called (GetUserByScreenName (twitter_user a)) (Some e)],
             Raise e)
        | Ok None =>
            (started ++ [Called (GetUserByScreenName (twitter_user a)) None;
                         Print (tag a ++ lit "Twitter user not found.")],
             Ok Returned)
        | Ok (Some user_id) =>
            (started ++ [Called (GetUserByScreenName (twitter_user a)) None;
                         Print (tag a ++ lit "Monitoring ID: " ++ user_id)]
               ++ trace (loop ws a user_id None),
             match outcome (loop ws a user_id None) with
             | Ok st => Ok (Looping st)
             | Raise e => Raise e
             end)
        end
    end.
Proof.
  intros Hc. unfold monitor_tweets, cookie_events, do_call, bind, trace, outcome.
  assert (Hcase : cookies_exist sw = false
                  \/ (cookies_exist sw = true /\ load_cookies sw = Ok tt)).
  { destruct (cookies_exist sw); [right|now left].
    destruct Hc as [Hc|Hc]; [discriminate|now split]. }
  clear Hc. destruct Hcase as [Hc|[Hc Hl]]; rewrite Hc; [|rewrite Hl];
    cbn [print ret fst snd app raised_of];
    (destruct (login sw (bluesky_user a) (bluesky_pass a)) as [u|[m|m]];
     cbn [try_except print ret fst snd app raised_of]; try reflexivity;
     destruct (get_user_by_screen_name sw (twitter_user a)) as [[user_id|]|e];
     cbn [fst snd app raised_of]; try reflexivity;
     destruct (loop ws a user_id None) as [tl [st|e]];
     cbn [fst snd app ret]; rewrite ?app_nil_r; reflexivity).
Qed.

(** X13.  A relay whose cookies cannot be loaded, whose login fails or
    whose account resolves to nothing prints one line and returns: it
    never polls and never publishes.  When the cookies cannot be loaded
    the failure is reported as a failed login and the login itself is
    not tried. *)
Theorem relay_start_failures (sw : startup_world) (ws : list world) (a : account) :
  (forall m,
      cookies_exist sw = true -> load_cookies sw = Raise (Exception m) ->
      monitor_tweets sw ws a
      = ([Called LoadCookies (Some (Exception m));
          Print (tag a ++ lit "Login failed: " ++ m)],
         Ok Returned))
  /\ (forall m,
        cookies_exist sw = false \/ load_cookies sw = Ok tt ->
        login sw (bluesky_user a) (bluesky_pass a) = Raise (Exception m) ->
        monitor_tweets sw ws a
        = (cookie_events sw a
             ++ [Called (Login (bluesky_user a) (bluesky_pass a))
                   (Some (Exception m));
                 Print (tag a ++ lit "Login failed: " ++ m)],
           Ok Returned))
  /\ (cookies_exist sw = false \/ load_cookies sw = Ok tt ->
      login sw (bluesky_user a) (bluesky_pass a) = Ok tt ->
      get_user_by_screen_name sw (twitter_user a) = Ok None ->
      monitor_tweets sw ws a
      = (cookie_events sw a
           ++ [Called (Login (bluesky_user a) (bluesky_pass a)) None;
               Print (tag a ++ lit "Logged into Bluesky.");
               Called (GetUserByScreenName (twitter_user a)) None;
               Print (tag a ++ lit "Twitter user not found.")],
         Ok Returned)).
Proof.
  split; [|split].
  - intros m Hc Hl. unfold monitor_tweets, do_call, bind.
    rewrite Hc, Hl. reflexivity.
  - intros m Hc Hl. rewrite (monitor_after_cookies sw ws a Hc), Hl. reflexivity.
  - intros Hc Hl Hu. rewrite (monitor_after_cookies sw ws a Hc), Hl, Hu.
    cbv zeta. now rewrite <- app_assoc.
Qed.

(** X14.  What [get_user_by_screen_name] raises leaves [monitor_tweets]
    as it is, whatever its class: the relay has logged in, it prints
    nothing about the failure and it never polls. *)
Theorem account_resolution_exception_escapes
    (sw : startup_world) (ws : list world) (a : account) (e : exn) :
  cookies_exist sw = false \/ load_cookies sw = Ok tt ->
  login sw (bluesky_user a) (bluesky_pass a) = Ok tt ->
  get_user_by_screen_name sw (twitter_user a) = Raise e ->
  monitor_tweets sw ws a
  = (cookie_events sw a
       ++ [Called (Login (bluesky_user a) (bluesky_pass a)) None;
           Print (tag a ++ lit "Logged into Bluesky.");
           Called (GetUserByScreenName (twitter_user a)) (Some e)],
     Raise e).
Proof.
  intros Hc Hl Hu. rewrite (monitor_after_cookies sw ws a Hc), Hl, Hu.
  cbv zeta. now rewrite <- app_assoc.
Qed.

Lemma account_resolution_exception_escapes_witness :
  (cookies_exist startup_resolution_error = false
   \/ load_cookies startup_resolution_error = Ok tt)
  /\ login startup_resolution_error (bluesky_user news) (bluesky_pass news) = Ok tt
  /\ get_user_by_screen_name startup_resolution_error (twitter_user news)
     = Raise (Exception (lit "The user does not exist."))
  /\ outcome (monitor_tweets startup_resolution_error [world_ok] news)
     = Raise (Exception (lit "The user does not exist.")).
Proof.
  split; [now right|]. split; [reflexivity|]. split; [reflexivity|].
  rewrite (@account_resolution_exception_escapes
             startup_resolution_error [world_ok] news
             (Exception (lit "The user does not exist."))
             (or_intror eq_refl) eq_refl eq_refl).
  reflexivity.
Defined.



